(** * WHY.AI backend: filter, scorer, discovery injector and explanation merge

    A shallow embedding of [backend/scoring.py], [backend/discovery.py] and
    the merge step of [backend/explainer.py], with the properties of the
    specification proved about it.

    Conventions of the embedding.
    - A Python record dictionary ([Dict[str, Any]]) is a finite map from
      strings to JSON-like values: [gmap string value].
    - Python numbers ([int] and finite [float]) are exact rationals [Q];
      [round(x, n)] and [round(x)] round half to even.  Orders and
      equalities between numbers are the ones of [Q].
    - A function that may raise returns [result]: [Ok v] or [Raise e].
    - Python's process-wide random source is an explicit list of raw draws
      handed to [random_sample]. *)

From Stdlib Require Import QArith Qround ZArith String List Lia Lqa.
From stdpp Require Import base option list sorting gmap strings.

Set Warnings "-register-all,-clear-no-such-hyp".
Close Scope Q_scope.
Local Open Scope string_scope.
Local Open Scope list_scope.
Local Open Scope nat_scope.

(** ** Values, records and exceptions *)

Inductive value : Type :=
  | VNone
  | VBool (b : bool)
  | VNum (q : Q)
  | VStr (s : string)
  | VList (l : list value)
  | VDict (d : list (string * value)).

Abbreviation item := (gmap string value).

Inductive exn : Type :=
  | KeyError (k : string)
  | TypeError
  | ValueError
  | ZeroDivisionError.

Inductive result (A : Type) : Type :=
  | Ok (a : A)
  | Raise (e : exn).
Arguments Ok {A} a.
Arguments Raise {A} e.

Definition bind {A B} (m : result A) (f : A → result B) : result B :=
  match m with
  | Ok a => f a
  | Raise e => Raise e
  end.

Notation "'let*' x ':=' m 'in' k" := (bind m (fun x => k))
  (at level 10, x name, m at level 100, k at level 200).

(** [mapM] of the list monad into [result]: the first exception, in list
    order, is the one raised (a Python comprehension or [for] loop). *)
Fixpoint mapM_result {A B} (f : A → result B) (l : list A) : result (list B) :=
  match l with
  | [] => Ok []
  | x :: xs =>
      let* y := f x in
      let* ys := mapM_result f xs in
      Ok (y :: ys)
  end.

(** [[x for x in l if p(x)]] where the test may raise. *)
Fixpoint filterM_result {A} (p : A → result bool) (l : list A) : result (list A) :=
  match l with
  | [] => Ok []
  | x :: xs =>
      let* b := p x in
      let* ys := filterM_result p xs in
      Ok (if b then x :: ys else ys)
  end.

(** [d[k]] *)
Definition getitem {A} (d : gmap string A) (k : string) : result A :=
  match d !! k with
  | Some v => Ok v
  | None => Raise (KeyError k)
  end.

(** A value used as an operand of arithmetic or of an order comparison with
    a number: [bool] is a subclass of [int]; anything else is a [TypeError]. *)
Definition as_num (v : value) : result Q :=
  match v with
  | VNum q => Ok q
  | VBool b => Ok (if b then 1 else 0)%Q
  | _ => Raise TypeError
  end.

Definition get_num (d : item) (k : string) : result Q :=
  let* v := getitem d k in as_num v.

(** [x > y] on numbers *)
Definition Qgtb (x y : Q) : bool :=
  match (x ?= y)%Q with Gt => true | _ => false end.

(** [x / y] on numbers *)
Definition py_div (x y : Q) : result Q :=
  if Qeq_bool y 0 then Raise ZeroDivisionError else Ok (x / y)%Q.

(** [round(x)]: nearest integer, ties to the even one. *)
Definition round_half_even (x : Q) : Z :=
  let f := Qfloor x in
  match (x - inject_Z f ?= 1 # 2)%Q with
  | Lt => f
  | Gt => (f + 1)%Z
  | Eq => if Z.even f then f else (f + 1)%Z
  end.

(** [round(x, ndigits)] for [ndigits >= 0] *)
Definition py_round (x : Q) (ndigits : nat) : Q :=
  let s := inject_Z (10 ^ Z.of_nat ndigits) in
  Qred (inject_Z (round_half_even (x * s)) / s).

(** ** scoring.py *)

Record weights : Type := Weights {
  budget_weight : Q;
  time_weight : Q;
  alignment_weight : Q;
}.

Definition PRESET_WEIGHTS : gmap string weights :=
  list_to_map [
    ("student", Weights (1 # 2) (3 # 10) (1 # 5));
    ("saver", Weights (3 # 5) (3 # 20) (1 # 4));
    ("explorer", Weights (3 # 20) (3 # 20) (7 # 10));
    ("default", Weights (7 # 20) (3 # 10) (7 # 20))
  ].

(** The weight dictionary as it is stored under ["weights_used"]. *)
Definition weights_value (w : weights) : value :=
  VDict [("budget_weight", VNum (budget_weight w));
         ("time_weight", VNum (time_weight w));
         ("alignment_weight", VNum (alignment_weight w))].

Fixpoint apply_hard_constraints (items : list item) (budget time : Q)
    : result (list item) :=
  match items with
  | [] => Ok []
  | it :: rest =>
      let* price := get_num it "price" in
      if Qgtb price budget then apply_hard_constraints rest budget time
      else
        let* minutes := get_num it "time_minutes" in
        if Qgtb minutes time then apply_hard_constraints rest budget time
        else
          let* passed := apply_hard_constraints rest budget time in
          Ok (it :: passed)
  end.

(** [PRESET_WEIGHTS.get(preset, PRESET_WEIGHTS["default"])]; an absent preset
    is Python's [None], which is no key of the table. *)
Definition lookup_weights (preset : option string) : result weights :=
  let* dflt := getitem PRESET_WEIGHTS "default" in
  Ok (default dflt (preset ≫= (PRESET_WEIGHTS !!.))).

(** The body of the scoring loop. *)
Definition score_item (w : weights) (budget time comfort_vs_exploration : Q)
    (it : item) : result item :=
  let* budget_score :=
    (if Qgtb budget 0 then
       let* p := get_num it "price" in
       let* r := py_div p budget in
       Ok (1 - r)%Q
     else Ok 1%Q) in
  let* time_score :=
    (if Qgtb time 0 then
       let* t := get_num it "time_minutes" in
       let* r := py_div t time in
       Ok (1 - r)%Q
     else Ok 1%Q) in
  let* comfort := get_num it "comfort_score" in
  let* exploration := get_num it "exploration_score" in
  let alignment_score :=
    ((1 - comfort_vs_exploration) * comfort
     + comfort_vs_exploration * exploration)%Q in
  let composite :=
    (budget_weight w * budget_score
     + time_weight w * time_score
     + alignment_weight w * alignment_score)%Q in
  let composite := py_round composite 4 in
  Ok (<["score_breakdown" :=
          VDict [("budget_efficiency", VNum (py_round budget_score 4));
                 ("time_efficiency", VNum (py_round time_score 4));
                 ("alignment", VNum (py_round alignment_score 4));
                 ("weights_used", weights_value w)]]>
      (<["score" := VNum composite]> it)).

(** [list.sort(key=..., reverse=True)]: the keys are computed first, then the
    list is sorted stably, larger keys first.  [insert_desc] puts [x] in
    front of the first element whose key is not greater than the key of [x]. *)
Fixpoint insert_desc {A} (x : Q * A) (l : list (Q * A)) : list (Q * A) :=
  match l with
  | [] => [x]
  | y :: ys => if Qgtb y.1 x.1 then y :: insert_desc x ys else x :: l
  end.

Definition sort_desc {A} (l : list (Q * A)) : list (Q * A) :=
  foldr insert_desc [] l.

Definition sort_by_key_reverse {A} (key : A → result Q) (l : list A)
    : result (list A) :=
  let* keys := mapM_result key l in
  Ok ((sort_desc (zip keys l)).*2).

Definition compute_soft_scores (items : list item)
    (budget time comfort_vs_exploration : Q) (preset : option string)
    : result (list item) :=
  let* w := lookup_weights preset in
  let* scored := mapM_result (score_item w budget time comfort_vs_exploration) items in
  sort_by_key_reverse (λ x, get_num x "score") scored.

Record scoring_result : Type := ScoringResult {
  ranked : list item;
  filtered_out_count : Z;
  total_count : Z;
}.

Definition score_items (items : list item)
    (budget time comfort_vs_exploration : Q) (preset : option string)
    : result scoring_result :=
  let total := Z.of_nat (length items) in
  let* passed := apply_hard_constraints items budget time in
  let filtered_out := (total - Z.of_nat (length passed))%Z in
  let* ranked := compute_soft_scores passed budget time comfort_vs_exploration preset in
  Ok (ScoringResult ranked filtered_out total).

(** ** discovery.py *)

(** Keys of Python sets and dictionaries.  Lists and dictionaries are not
    hashable; numbers that are equal are the same key, and [True] and
    [False] are the numbers 1 and 0. *)
Inductive pykey : Type :=
  | KNone
  | KNum (q : Q)
  | KStr (s : string).

#[global] Instance Q_eq_dec : EqDecision Q.
Proof. solve_decision. Defined.
#[global] Instance pykey_eq_dec : EqDecision pykey.
Proof. solve_decision. Defined.

Definition hash_key (v : value) : result pykey :=
  match v with
  | VNone => Ok KNone
  | VBool b => Ok (KNum (if b then 1 else 0)%Q)
  | VNum q => Ok (KNum (Qred q))
  | VStr s => Ok (KStr s)
  | VList _ | VDict _ => Raise TypeError
  end.

(** [item["id"]] used as a set element or a dictionary key *)
Definition id_key (it : item) : result pykey :=
  let* v := getitem it "id" in hash_key v.

(** [l[:n]] for an integer [n]: a negative [n] counts from the end. *)
Definition slice_stop (n : Z) (len : nat) : nat :=
  if (n <? 0)%Z then Z.to_nat (Z.of_nat len + n) else Z.to_nat n.

Definition slice_to {A} (l : list A) (n : Z) : list A :=
  take (slice_stop n (length l)) l.

(** [l.insert(pos, x)] for [pos >= 0]: positions past the end append. *)
Definition list_insert_at {A} (pos : nat) (x : A) (l : list A) : list A :=
  take pos l ++ x :: drop pos l.

(** Selection without replacement: the next raw draw, reduced modulo the
    number of elements still available, names the element taken. *)
Fixpoint sample_draws {A} (draws : list nat) (k : nat) (population : list A)
    : list A :=
  match k with
  | O => []
  | S k' =>
      let j := hd O draws `mod` length population in
      match population !! j with
      | Some x => x :: sample_draws (tl draws) k' (delete j population)
      | None => []
      end
  end.

(** [random.sample(population, k)] *)
Definition random_sample {A} (draws : list nat) (population : list A) (k : Z)
    : result (list A) :=
  if ((k <? 0) || (Z.of_nat (length population) <? k))%Z then Raise ValueError
  else Ok (sample_draws draws (Z.to_nat k) population).

Definition DISCOVERY_REASON : string :=
  "This is shown to broaden your discovery. It satisfies your constraints but explores a different direction.".

Definition mark_top (it : item) : item :=
  <["is_discovery" := VBool false]> it.

Definition mark_discovery (it : item) : item :=
  <["discovery_reason" := VStr DISCOVERY_REASON]>
    (<["is_discovery" := VBool true]> it).

(** The insertion loop: [i] is the index [enumerate] gives to the head of
    [picks]. *)
Fixpoint insert_picks (i : nat) (picks results : list item) : list item :=
  match picks with
  | [] => results
  | pick :: rest =>
      let insert_pos := Nat.min (2 + i * 2) (length results) in
      insert_picks (S i) rest (list_insert_at insert_pos pick results)
  end.

(** The dictionaries of [ranked] are updated in place.  A dictionary of the
    head is never one of the pool, whose ids are outside [top_ids], so the
    head carries the [False] mark and the picks the [True] mark whatever
    objects are shared; the function below builds the marked records. *)
Definition inject_discovery (draws : list nat) (ranked all_passed : list item)
    (top_n : Z) (discovery_ratio : Q) : result (list item) :=
  let top_items := slice_to ranked top_n in
  let* top_ids := mapM_result id_key top_items in
  let top_items := mark_top <$> top_items in
  let* discovery_pool :=
    filterM_result
      (λ it, let* k := id_key it in Ok (bool_decide (k ∉ top_ids))) ranked in
  match discovery_pool with
  | [] => Ok top_items
  | _ :: _ =>
      let num_discovery :=
        Z.max 1 (round_half_even (inject_Z top_n * discovery_ratio)) in
      let num_discovery :=
        Z.min num_discovery (Z.of_nat (length discovery_pool)) in
      let* discovery_picks := random_sample draws discovery_pool num_discovery in
      let discovery_picks := mark_discovery <$> discovery_picks in
      Ok (insert_picks 0 discovery_picks top_items)
  end.

(** ** explainer.py *)

(** Truth value of an object, as tested by [if], [not] and [dict.get]'s
    callers. *)
Definition truthy (v : value) : bool :=
  match v with
  | VNone => false
  | VBool b => b
  | VNum q => negb (Qeq_bool q 0)
  | VStr s => negb (String.eqb s "")
  | VList l => negb (bool_decide (length l = O))
  | VDict d => negb (bool_decide (length d = O))
  end.

(** Lookup in a dictionary literal or a parsed JSON object. *)
Fixpoint assoc_get (d : list (string * value)) (k : string) : option value :=
  match d with
  | [] => None
  | (k', v) :: rest => if String.eqb k' k then Some v else assoc_get rest k
  end.

(** [for e in v]: the elements of a list, the keys of a dictionary, the
    one-character strings of a string. *)
Definition iterate (v : value) : result (list value) :=
  match v with
  | VList l => Ok l
  | VDict d => Ok ((λ kv, VStr kv.1) <$> d)
  | VStr s =>
      Ok ((λ c, VStr (String c EmptyString)) <$> list_ascii_of_string s)
  | _ => Raise TypeError
  end.

(** [e["id"]] on an arbitrary object: only a dictionary takes a string
    subscript. *)
Definition subscript (e : value) (k : string) : result value :=
  match e with
  | VDict d =>
      match assoc_get d k with
      | Some v => Ok v
      | None => Raise (KeyError k)
      end
  | _ => Raise TypeError
  end.

(** A dictionary built by a comprehension, as the list of its insertions: a
    later insertion under an equal key replaces the earlier one. *)
Fixpoint map_get {V} (m : list (pykey * V)) (k : pykey) : option V :=
  match m with
  | [] => None
  | (k', v) :: rest =>
      match map_get rest k with
      | Some v' => Some v'
      | None => if decide (k' = k) then Some v else None
      end
  end.

Section explainer.
(** [str(v)] as an f-string field prints it, [str(n)] of an [int], and
    [format(x, ".2f")]: the texts themselves play no part below. *)
Variable str_value : value → string.
Variable str_int : Z → string.
Variable format_2f : Q → string.

(** What [generate_explanations_llm] returns: the parsed answer of the
    remote model, or the empty list when the key or the client library is
    missing or the call or the parsing raised. *)
Variable generate_explanations_llm : string → item → list item → value.

(** [round((1 - it[field] / limit) * 100) if limit > 0 else 0] *)
Definition saved_pct (it : item) (field : string) (limit : value) : result Z :=
  let* l := as_num limit in
  if Qgtb l 0 then
    let* x := get_num it field in
    let* r := py_div x l in
    Ok (round_half_even ((1 - r) * 100))
  else Ok 0%Z.

(** The body of the template loop for the item at index [i]. *)
Definition template_explanation (budget time_limit : value) (i : nat)
    (it : item) : result value :=
  let* budget_pct := saved_pct it "price" budget in
  let* time_pct := saved_pct it "time_minutes" time_limit in
  let* texts :=
    (if truthy (default VNone (it !! "is_discovery")) then
       let* name := getitem it "name" in
       let* exploration := getitem it "exploration_score" in
       Ok ("🔍 Discovery pick! '" +:+ str_value name
             +:+ "' meets your constraints but offers something different — it scores high on exploration ("
             +:+ str_value exploration +:+ ").",
           "Exploration-focused pick: may not be your usual preference, but it stays within ₹"
             +:+ str_value budget +:+ " and " +:+ str_value time_limit +:+ " min.")
     else
       let* score := get_num it "score" in
       let* minutes := getitem it "time_minutes" in
       let* price := getitem it "price" in
       Ok ("Scored " +:+ format_2f score +:+ " — saves " +:+ str_int budget_pct
             +:+ "% of your budget and uses only " +:+ str_value minutes +:+ "/"
             +:+ str_value time_limit +:+ " min.",
           "Costs ₹" +:+ str_value price +:+ " (" +:+ str_int budget_pct
             +:+ "% saved) and takes " +:+ str_value minutes +:+ " min ("
             +:+ str_int time_pct +:+ "% time saved).")) in
  let why_others :=
    if bool_decide (i = 0)%nat then
      "Top pick — best balance of your constraints."
    else if bool_decide (i < 3)%nat then
      "Strong option, slightly less optimal on one dimension."
    else
      "Still meets your constraints but scored lower on weighted combination." in
  let* id := getitem it "id" in
  Ok (VDict [("id", id);
             ("why_recommended", VStr texts.1);
             ("tradeoffs", VStr texts.2);
             ("why_others_lower", VStr why_others)]).

Fixpoint template_loop (budget time_limit : value) (i : nat)
    (items : list item) : result (list value) :=
  match items with
  | [] => Ok []
  | it :: rest =>
      let* e := template_explanation budget time_limit i it in
      let* es := template_loop budget time_limit (S i) rest in
      Ok (e :: es)
  end.

Definition generate_explanations_template (constraints : item)
    (items : list item) : result value :=
  let budget := default (VNum 0) (constraints !! "budget") in
  let time_limit := default (VNum 0) (constraints !! "time") in
  let* explanations := template_loop budget time_limit 0 items in
  Ok (VList explanations).

(** One entry [e["id"]: e] of the comprehension that builds [expl_map]. *)
Definition expl_entry (e : value) : result (pykey * list (string * value)) :=
  let* id := subscript e "id" in
  let* k := hash_key id in
  match e with
  | VDict d => Ok (k, d)
  | _ => Raise TypeError
  end.

(** The body of the merge loop. *)
Definition merge_explanation (expl_map : list (pykey * list (string * value)))
    (it : item) : result item :=
  let* k := id_key it in
  let expl := default [] (map_get expl_map k) in
  Ok (<["why_others_lower" := default (VStr "") (assoc_get expl "why_others_lower")]>
      (<["tradeoffs" :=
           default (VStr "No significant tradeoffs identified.")
                   (assoc_get expl "tradeoffs")]>
       (<["why_recommended" :=
            default (VStr "Meets your constraints.")
                    (assoc_get expl "why_recommended")]> it))).

Definition generate_explanations (query : string) (constraints : item)
    (items : list item) : result (list item) :=
  let explanations := generate_explanations_llm query constraints items in
  let* explanations :=
    (if truthy explanations then Ok explanations
     else generate_explanations_template constraints items) in
  let* es := iterate explanations in
  let* expl_map := mapM_result expl_entry es in
  mapM_result (merge_explanation expl_map) items.

End explainer.

(** ** Vocabulary of the specification *)

Definition is_Ok {A} (r : result A) : Prop := ∃ a, r = Ok a.

(** The numeric reading of a field, 0 where the record has none. *)
Definition num_of (k : string) (it : item) : Q :=
  match get_num it k with
  | Ok q => q
  | Raise _ => 0%Q
  end.

#[global] Instance Qle_dec : RelDecision Qle := λ x y,
  match Qlt_le_dec y x with
  | left H => right (Qlt_not_le _ _ H)
  | right H => left H
  end.

#[global] Instance Qeq_dec' : RelDecision Qeq := Qeq_dec.

(** The hard constraints, in the words of the specification. *)
Definition within_limits (budget time_limit : Q) (it : item) : Prop :=
  (num_of "price" it <= budget)%Q ∧ (num_of "time_minutes" it <= time_limit)%Q.

#[global] Instance within_limits_dec budget time_limit it :
  Decision (within_limits budget time_limit it).
Proof. unfold within_limits. apply _. Defined.

(** An item whose price and time cost are numbers. *)
Definition filterable (it : item) : Prop :=
  is_Ok (get_num it "price") ∧ is_Ok (get_num it "time_minutes").

#[global] Instance Qlt_dec : RelDecision Qlt := λ x y,
  match Qlt_le_dec x y with
  | left H => left H
  | right H => right (Qle_not_lt _ _ H)
  end.

(** The three dimension scores and the composite, in the words of the
    specification. *)
Definition budget_efficiency (budget price : Q) : Q :=
  if decide (0 < budget)%Q then (1 - price / budget)%Q else 1%Q.

Definition time_efficiency (time_limit time_cost : Q) : Q :=
  if decide (0 < time_limit)%Q then (1 - time_cost / time_limit)%Q else 1%Q.

Definition alignment (slider comfort_affinity exploration_affinity : Q) : Q :=
  ((1 - slider) * comfort_affinity + slider * exploration_affinity)%Q.

Definition weighted_sum (w : weights) (be te al : Q) : Q :=
  (budget_weight w * be + time_weight w * te + alignment_weight w * al)%Q.

Definition default_profile : weights := Weights (7 # 20) (3 # 10) (7 # 20).

(** The profile a preset resolves to: the one it names, [default] when it
    names none or is absent. *)
Definition profile_of (preset : option string) (w : weights) : Prop :=
  match preset with
  | Some name =>
      match PRESET_WEIGHTS !! name with
      | Some p => w = p
      | None => w = default_profile
      end
  | None => w = default_profile
  end.

(** An item with the four numeric fields the scorer reads. *)
Definition scorable (it : item) : Prop :=
  is_Ok (get_num it "price") ∧ is_Ok (get_num it "time_minutes")
  ∧ is_Ok (get_num it "comfort_score") ∧ is_Ok (get_num it "exploration_score").

(** Two records that agree on every field outside [keys]. *)
Definition agree_except (keys : list string) (a b : item) : Prop :=
  ∀ k, k ∉ keys → a !! k = b !! k.

(** [sc] is [it] enriched by the scorer under the profile [w]. *)
Definition scored_as (w : weights) (budget time_limit slider : Q)
    (it sc : item) : Prop :=
  let be := budget_efficiency budget (num_of "price" it) in
  let te := time_efficiency time_limit (num_of "time_minutes" it) in
  let al := alignment slider (num_of "comfort_score" it)
                      (num_of "exploration_score" it) in
  sc !! "score" = Some (VNum (py_round (weighted_sum w be te al) 4))
  ∧ sc !! "score_breakdown"
    = Some (VDict [("budget_efficiency", VNum (py_round be 4));
                   ("time_efficiency", VNum (py_round te 4));
                   ("alignment", VNum (py_round al 4));
                   ("weights_used", weights_value w)])
  ∧ agree_except ["score"; "score_breakdown"] it sc.

(** Descending order of the composite score. *)
Definition score_ge (a b : item) : Prop :=
  (num_of "score" b <= num_of "score" a)%Q.

(** The items of a ranked list whose score is (numerically) [s], in order. *)
Definition with_score (s : Q) (l : list item) : list item :=
  filter (λ it, (num_of "score" it == s)%Q) l.

(** The sample catalogue of [test_scoring.py]. *)
Definition sample_item (id name category : string) (price minutes comfort
    exploration : Q) (tag description : string) : item :=
  list_to_map [
    ("id", VStr id); ("name", VStr name); ("category", VStr category);
    ("price", VNum price); ("time_minutes", VNum minutes);
    ("comfort_score", VNum comfort); ("exploration_score", VNum exploration);
    ("tags", VList [VStr tag]); ("description", VStr description)
  ].

Definition SAMPLE_ITEMS : list item := [
  sample_item "t1" "Cheap Quick Meal" "meal" 50 10 (8 # 10) (2 # 10)
              "budget" "A cheap, quick meal.";
  sample_item "t2" "Expensive Slow Experience" "experience" 500 120 (3 # 10)
              (9 # 10) "premium" "Costly and time-consuming.";
  sample_item "t3" "Mid-Range Comfort" "meal" 200 30 (9 # 10) (3 # 10)
              "comfort" "Mid-range comfortable option.";
  sample_item "t4" "Budget Explorer" "experience" 80 45 (4 # 10) (85 # 100)
              "explore" "Cheap but adventurous.";
  sample_item "t5" "Premium Comfort" "meal" 350 40 (95 # 100) (1 # 10)
              "luxury" "Premium comfort option."
].

(** Order of the decorated list that [sort_desc] produces. *)
Definition key_ge {A} (a b : Q * A) : Prop := (b.1 <= a.1)%Q.

(** The identity key of a record, [KNone] where it has none. *)
Definition id_of (it : item) : pykey :=
  match id_key it with
  | Ok k => k
  | Raise _ => KNone
  end.

(** A record with an [id] that can be a set element. *)
Definition identified (it : item) : Prop := is_Ok (id_key it).

(** [l[n:]] *)
Definition slice_from {A} (l : list A) (n : Z) : list A :=
  drop (slice_stop n (length l)) l.


(** The candidate pool as the code selects it: the ranked items whose id is
    not the id of a head item. *)
Definition id_pool (ranked : list item) (top_n : Z) : list item :=
  filter (λ it, id_of it ∉ id_of <$> slice_to ranked top_n) ranked.

(** [o] is the head item [h] with its flag set. *)
Definition flagged_top (h o : item) : Prop :=
  o !! "is_discovery" = Some (VBool false)
  ∧ agree_except ["is_discovery"] h o.

(** [o] is the sampled item [s] with its flag and reason set. *)
Definition flagged_discovery (s o : item) : Prop :=
  o !! "is_discovery" = Some (VBool true)
  ∧ o !! "discovery_reason" = Some (VStr DISCOVERY_REASON)
  ∧ DISCOVERY_REASON ≠ ""
  ∧ agree_except ["is_discovery"; "discovery_reason"] s o.




(** [num_discovery] as the code computes it from the size of its pool. *)
Definition num_discovery_of (top_n : Z) (discovery_ratio : Q) (pool_size : nat)
    : Z :=
  Z.min (Z.max 1 (round_half_even (inject_Z top_n * discovery_ratio)))
        (Z.of_nat pool_size).



(** A record the template loop can describe: it has an id, numeric price,
    time cost and score, a name and an exploration score. *)
Definition explainable (it : item) : Prop :=
  identified it
  ∧ is_Ok (get_num it "price")
  ∧ is_Ok (get_num it "time_minutes")
  ∧ is_Ok (get_num it "score")
  ∧ is_Some (it !! "name")
  ∧ is_Some (it !! "exploration_score").

(** The limits of a constraints dictionary are numbers where present. *)
Definition numeric_limits (constraints : item) : Prop :=
  is_Ok (as_num (default (VNum 0) (constraints !! "budget")))
  ∧ is_Ok (as_num (default (VNum 0) (constraints !! "time"))).

(** An explanation dictionary with three non-empty texts. *)
Definition good_texts (d : list (string * value)) : Prop :=
  ∃ why tr wo,
    assoc_get d "why_recommended" = Some (VStr why) ∧ why ≠ ""
    ∧ assoc_get d "tradeoffs" = Some (VStr tr) ∧ tr ≠ ""
    ∧ assoc_get d "why_others_lower" = Some (VStr wo) ∧ wo ≠ "".

(** The explanation dictionary the template loop writes for [it]. *)
Definition template_entry (it : item) (d : list (string * value)) : Prop :=
  (∃ v, it !! "id" = Some v ∧ assoc_get d "id" = Some v) ∧ good_texts d.


(** The first two sample items with a score attached. *)
Definition SCORED_ITEMS : list item :=
  (λ it : item, <["score" := VNum (3 # 4)]> it) <$> take 2 SAMPLE_ITEMS.

(** A constraints dictionary as [main.py] builds it, and a run in which the
    remote explainer is unavailable. *)
Definition SAMPLE_CONSTRAINTS : item :=
  list_to_map [("budget", VNum 500); ("time", VNum 120);
               ("comfort_vs_exploration", VNum (1 # 2)); ("preset", VNone)].

Definition llm_unavailable (query : string) (constraints : item)
    (items : list item) : value :=
  VList [].

(** Stand-ins for the number and value formatting of the f-strings. *)
Definition text_of_value (v : value) : string :=
  match v with
  | VStr s => s
  | _ => "?"
  end.

Definition text_of_int (n : Z) : string := "0".

Definition text_of_2f (q : Q) : string := "0.00".

(** The pairs [(key, element)] that [list.sort] orders. *)
Definition decorate {A} (kf : A → Q) (x : A) : Q * A := (kf x, x).

Definition decorated {A} (kf : A → Q) (p : Q * A) : Prop := p.1 = kf p.2.

(** ** main.py: the pipeline of [recommend]

    Request parsing, catalogue loading and the validation of the response
    model happen around this function; the catalogue is its argument. *)


Section recommend.
Variable str_value : value → string.
Variable str_int : Z → string.
Variable format_2f : Q → string.
Variable generate_explanations_llm : string → item → list item → value.

End recommend.

(** ** Vocabulary of the further properties *)




(** A record with no id, and a record whose id, if any, is hashable. *)
Definition no_id (it : item) : Prop := it !! "id" = None.

Definition id_or_none (it : item) : Prop := identified it ∨ no_id it.



(** Output flags of the injector on records that came without a reason. *)
Definition reason_iff_discovery (o : item) : Prop :=
  (o !! "is_discovery" = Some (VBool true)
   ∧ o !! "discovery_reason" = Some (VStr DISCOVERY_REASON))
  ∨ (o !! "is_discovery" = Some (VBool false)
     ∧ o !! "discovery_reason" = None).

(** The default texts of the merge loop. *)
Definition default_texts (o : item) : Prop :=
  o !! "why_recommended" = Some (VStr "Meets your constraints.")
  ∧ o !! "tradeoffs" = Some (VStr "No significant tradeoffs identified.")
  ∧ o !! "why_others_lower" = Some (VStr "").

(** The ids of the dictionaries of an answer. *)
Definition answer_id (d : list (string * value)) : pykey :=
  match assoc_get d "id" with
  | Some v => match hash_key v with Ok k => k | Raise _ => KNone end
  | None => KNone
  end.

(** A larger catalogue, for the runs that need a pool beyond five items. *)
Definition LARGE_SAMPLE : list item :=
  SAMPLE_ITEMS ++ [
    sample_item "t6" "Street Snack" "meal" 30 5 (7 # 10) (4 # 10)
                "budget" "A quick snack.";
    sample_item "t7" "Museum Visit" "experience" 120 50 (5 # 10) (8 # 10)
                "explore" "An afternoon at the museum."
  ].

(** Malformed records: one far over budget with no time cost, one with no
    price, one with no id. *)
Definition NO_TIME_ITEM : item :=
  list_to_map [("id", VStr "x1"); ("name", VStr "Opera Night");
               ("price", VNum 900)].

Definition NO_PRICE_ITEM : item :=
  list_to_map [("id", VStr "x2"); ("name", VStr "Free Sample");
               ("time_minutes", VNum 5); ("comfort_score", VNum (1 # 2));
               ("exploration_score", VNum (1 # 2))].

Definition NO_ID_ITEM : item :=
  list_to_map [("name", VStr "Mystery Box"); ("price", VNum 40);
               ("time_minutes", VNum 5); ("comfort_score", VNum (1 # 2));
               ("exploration_score", VNum (1 # 2))].



(** The three texts of [o] are those of the explanation [d], with the
    default text for each field [d] lacks. *)
Definition texts_from (d : list (string * value)) (o : item) : Prop :=
  o !! "why_recommended"
  = Some (default (VStr "Meets your constraints.")
                  (assoc_get d "why_recommended"))
  ∧ o !! "tradeoffs"
    = Some (default (VStr "No significant tradeoffs identified.")
                    (assoc_get d "tradeoffs"))
  ∧ o !! "why_others_lower"
    = Some (default (VStr "") (assoc_get d "why_others_lower")).

(** A dictionary of an answer with an id that can be a key, or without id. *)
Definition keyed (d : list (string * value)) : Prop :=
  ∃ id, assoc_get d "id" = Some id ∧ is_Ok (hash_key id).

Definition unkeyed (d : list (string * value)) : Prop :=
  assoc_get d "id" = None.

(** An answer with two explanations for the first sample item and none for
    the second, and a remote explainer that gives it. *)
Definition LAST_ANSWER : list (string * value) :=
  [("id", VStr "t1"); ("why_recommended", VStr "Best value.")].

Definition PARTIAL_ANSWER : list (list (string * value)) := [
  [("id", VStr "t1"); ("why_recommended", VStr "Cheap and quick.");
   ("tradeoffs", VStr "Plain."); ("why_others_lower", VStr "They cost more.")];
  [("id", VStr "t9"); ("why_recommended", VStr "Unknown item.")];
  LAST_ANSWER
].

Definition llm_partial (query : string) (constraints : item)
    (items : list item) : value :=
  VList (VDict <$> PARTIAL_ANSWER).

(** An answer whose second dictionary has no id, and an answer that is a
    JSON object instead of an array. *)
Definition llm_unkeyed (query : string) (constraints : item)
    (items : list item) : value :=
  VList (VDict <$> [[("id", VStr "t1"); ("why_recommended", VStr "Fine.")];
                    [("why_recommended", VStr "No id here.")]]).

Definition llm_object (query : string) (constraints : item)
    (items : list item) : value :=
  VDict [("explanations", VList [])].






(** The [why_others_lower] text the templates give to the item at index
    [i]. *)
Definition rank_text (i : nat) : string :=
  if bool_decide (i = 0) then
    "Top pick — best balance of your constraints."
  else if bool_decide (i < 3) then
    "Strong option, slightly less optimal on one dimension."
  else
    "Still meets your constraints but scored lower on weighted combination.".

(** * Properties *)

(** ** Numbers and exceptions *)

Lemma Qgtb_true (x y : Q) : Qgtb x y = true ↔ (y < x)%Q.
Proof.
  unfold Qgtb. rewrite (Qgt_alt x y).
  destruct (x ?= y)%Q; split; congruence.
Qed.

Lemma Qgtb_false (x y : Q) : Qgtb x y = false ↔ (x <= y)%Q.
Proof.
  unfold Qgtb. rewrite (Qle_alt x y).
  destruct (x ?= y)%Q; split; congruence.
Qed.

Lemma bind_Ok {A B} (m : result A) (f : A → result B) (b : B) :
  bind m f = Ok b ↔ ∃ a, m = Ok a ∧ f a = Ok b.
Proof.
  destruct m as [a|e]; simpl; split.
  - eauto.
  - intros (a' & [= ->] & H). done.
  - discriminate.
  - intros (a' & [=] & _).
Qed.

Lemma num_of_Ok (it : item) (k : string) (q : Q) :
  get_num it k = Ok q → num_of k it = q.
Proof. unfold num_of. by intros ->. Qed.

(** ** The constraint filter *)

Lemma apply_hard_constraints_filter (items : list item) (budget time : Q) :
  Forall filterable items →
  apply_hard_constraints items budget time
  = Ok (filter (within_limits budget time) items).
Proof.
  induction 1 as [|it rest [[p Hp] [t Ht]] _ IH]; [done|].
  cbn [apply_hard_constraints]. rewrite Hp. cbn [bind].
  assert (Hlim : within_limits budget time it ↔ (p <= budget)%Q ∧ (t <= time)%Q).
  { unfold within_limits.
    by rewrite (num_of_Ok _ _ _ Hp), (num_of_Ok _ _ _ Ht). }
  rewrite filter_cons.
  destruct (Qgtb p budget) eqn:Hpb.
  - apply Qgtb_true in Hpb. rewrite IH.
    rewrite decide_False; [done|]. rewrite Hlim.
    intros [Hle _]. by apply Qlt_not_le in Hpb.
  - apply Qgtb_false in Hpb. rewrite Ht. cbn [bind].
    destruct (Qgtb t time) eqn:Htt.
    + apply Qgtb_true in Htt. rewrite IH.
      rewrite decide_False; [done|]. rewrite Hlim.
      intros [_ Hle]. by apply Qlt_not_le in Htt.
    + apply Qgtb_false in Htt. rewrite IH. cbn [bind].
      rewrite decide_True; [done|]. by apply Hlim.
Qed.

(** C1. For every list of items with numeric price and time cost and all
    rational [budget] and [time] (zero and negative included), the filter
    returns exactly the items with price at most [budget] and time cost at
    most [time]: the result is the input with the other items struck out,
    hence an order-preserving subsequence whose members are the input
    records themselves, unchanged.  Being a function of its arguments, the
    filter gives the same sequence on the same inputs. *)
Theorem apply_hard_constraints_correct (items : list item) (budget time : Q) :
  Forall filterable items →
  ∃ passed,
    apply_hard_constraints items budget time = Ok passed
    ∧ passed = filter (within_limits budget time) items
    ∧ passed `sublist_of` items
    ∧ (∀ it, it ∈ passed ↔
         it ∈ items
         ∧ (num_of "price" it <= budget)%Q
         ∧ (num_of "time_minutes" it <= time)%Q).
Proof.
  intros Hwf. eexists. split; [by apply apply_hard_constraints_filter|].
  split; [done|]. split; [apply sublist_filter|].
  intros it. rewrite list_elem_of_filter. unfold within_limits. tauto.
Qed.

Lemma apply_hard_constraints_correct_witness :
  Forall filterable SAMPLE_ITEMS
  ∧ ∃ passed,
      apply_hard_constraints SAMPLE_ITEMS 100 120 = Ok passed
      ∧ passed = filter (within_limits 100 120) SAMPLE_ITEMS
      ∧ passed `sublist_of` SAMPLE_ITEMS
      ∧ (∀ it, it ∈ passed ↔
           it ∈ SAMPLE_ITEMS
           ∧ (num_of "price" it <= 100)%Q
           ∧ (num_of "time_minutes" it <= 120)%Q).
Proof.
  assert (H : Forall filterable SAMPLE_ITEMS).
  { repeat constructor; eexists; vm_compute; reflexivity. }
  split; [exact H|].
  exact (apply_hard_constraints_correct SAMPLE_ITEMS 100 120 H).
Defined.

(** [test_hard_constraint_both]: with budget 100 and 15 minutes only the
    first sample item survives. *)
Example test_hard_constraint_both :
  apply_hard_constraints SAMPLE_ITEMS 100 15 = Ok (take 1 SAMPLE_ITEMS).
Proof. vm_compute. reflexivity. Qed.

(** ** Loops that may raise *)

Lemma mapM_result_Ok {A B} (f : A → result B) (l : list A) (l' : list B) :
  mapM_result f l = Ok l' ↔ Forall2 (λ x y, f x = Ok y) l l'.
Proof.
  revert l'. induction l as [|x xs IH]; intros l'; simpl.
  - split; [intros [= <-]; constructor|by inversion 1].
  - rewrite bind_Ok. split.
    + intros (y & Hy & H). apply bind_Ok in H as (ys & Hys & [= <-]).
      constructor; [done|by apply IH].
    + inversion 1 as [|? y ? ys Hy Hys]; subst. exists y. split; [done|].
      apply bind_Ok. exists ys. split; [by apply IH|done].
Qed.

Lemma mapM_result_total {A B} (f : A → result B) (l : list A) :
  Forall (λ x, is_Ok (f x)) l → is_Ok (mapM_result f l).
Proof.
  induction 1 as [|x xs [y Hy] _ [ys IH]]; [by eexists|].
  exists (y :: ys). simpl. by rewrite Hy, IH.
Qed.

Lemma mapM_result_map {A B} (f : A → result B) (g : A → B) (l : list A) :
  Forall (λ x, f x = Ok (g x)) l → mapM_result f l = Ok (g <$> l).
Proof.
  induction 1 as [|x xs Hx _ IH]; [done|]. simpl. by rewrite Hx, IH.
Qed.

(** ** The stable descending sort *)

Section sort_desc.
Context {A : Type}.
Implicit Types (x y : Q * A) (l : list (Q * A)).

Lemma insert_desc_Permutation x l : insert_desc x l ≡ₚ x :: l.
Proof.
  induction l as [|y ys IH]; simpl; [done|].
  destruct (Qgtb y.1 x.1); [|done].
  rewrite IH. apply Permutation_swap.
Qed.

Lemma sort_desc_Permutation l : sort_desc l ≡ₚ l.
Proof.
  induction l as [|x xs IH]; simpl; [done|].
  by rewrite insert_desc_Permutation, IH.
Qed.

Lemma insert_desc_sorted x l :
  StronglySorted key_ge l → StronglySorted key_ge (insert_desc x l).
Proof.
  induction 1 as [|y ys Hys IH Hy]; simpl.
  - repeat constructor.
  - destruct (Qgtb y.1 x.1) eqn:Hgt.
    + apply Qgtb_true in Hgt. constructor; [done|].
      rewrite insert_desc_Permutation. constructor; [|done].
      by apply Qlt_le_weak.
    + apply Qgtb_false in Hgt. constructor; [by constructor|].
      constructor; [done|].
      eapply Forall_impl; [exact Hy|]. intros z Hz.
      unfold key_ge in *. by eapply Qle_trans.
Qed.

Lemma sort_desc_sorted l : StronglySorted key_ge (sort_desc l).
Proof.
  induction l as [|x xs IH]; simpl; [constructor|].
  by apply insert_desc_sorted.
Qed.

Lemma insert_desc_stable (s : Q) x l :
  filter (λ p, (p.1 == s)%Q) (insert_desc x l)
  = filter (λ p, (p.1 == s)%Q) (x :: l).
Proof.
  induction l as [|y ys IH]; simpl; [done|].
  destruct (Qgtb y.1 x.1) eqn:Hgt; [|done].
  apply Qgtb_true in Hgt.
  rewrite (filter_cons _ y), IH, !filter_cons.
  destruct (decide (y.1 == s)%Q) as [Hy|]; [|done].
  destruct (decide (x.1 == s)%Q) as [Hx|]; [|done].
  exfalso. apply (Qlt_irrefl s). by rewrite <- Hx at 1; rewrite <- Hy.
Qed.

Lemma sort_desc_stable (s : Q) l :
  filter (λ p, (p.1 == s)%Q) (sort_desc l) = filter (λ p, (p.1 == s)%Q) l.
Proof.
  induction l as [|x xs IH]; simpl; [done|].
  by rewrite insert_desc_stable, !filter_cons, IH.
Qed.
End sort_desc.

Section sort_by_key.
Context {A : Type} (kf : A → Q).

Lemma decorated_sorted (m : list (Q * A)) :
  Forall (decorated kf) m → StronglySorted key_ge m →
  StronglySorted (λ a b, (kf b <= kf a)%Q) (m.*2).
Proof.
  intros Hm Hs. induction Hs as [|p m Hs IH Hp]; simpl; [constructor|].
  apply Forall_cons in Hm as [Hdp Hm]. constructor; [by apply IH|].
  apply Forall_fmap, Forall_forall. intros q Hq. simpl.
  rewrite Forall_forall in Hp, Hm.
  specialize (Hp q Hq). specialize (Hm q Hq).
  unfold key_ge, decorated in *. by rewrite <- Hdp, <- Hm.
Qed.

Lemma decorated_filter (s : Q) (m : list (Q * A)) :
  Forall (decorated kf) m →
  filter (λ x, (kf x == s)%Q) (m.*2) = (filter (λ p, (p.1 == s)%Q) m).*2.
Proof.
  induction 1 as [|p m Hp _ IH]; [done|].
  rewrite fmap_cons, !filter_cons, IH. unfold decorated in Hp.
  destruct (decide (kf p.2 == s)%Q) as [H1|H1],
           (decide (p.1 == s)%Q) as [H2|H2]; try done.
  - exfalso. apply H2. by rewrite Hp.
  - exfalso. apply H1. by rewrite <- Hp.
Qed.

Lemma sort_by_key_reverse_spec (key : A → result Q) (l : list A) :
  Forall (λ x, key x = Ok (kf x)) l →
  ∃ out,
    sort_by_key_reverse key l = Ok out
    ∧ out ≡ₚ l
    ∧ StronglySorted (λ a b, (kf b <= kf a)%Q) out
    ∧ ∀ s, filter (λ x, (kf x == s)%Q) out = filter (λ x, (kf x == s)%Q) l.
Proof.
  intros Hkey. unfold sort_by_key_reverse.
  rewrite (mapM_result_map key kf l Hkey). cbn [bind].
  assert (Hzip : zip (kf <$> l) l = decorate kf <$> l).
  { clear. induction l as [|x xs IH]; [done|].
    change (decorate kf x :: zip (kf <$> xs) xs = decorate kf x :: (decorate kf <$> xs)).
    by rewrite IH. }
  rewrite Hzip. eexists. split; [done|].
  assert (Hsnd : (decorate kf <$> l).*2 = l).
  { clear. induction l as [|x xs IH]; [done|].
    change (x :: (decorate kf <$> xs).*2 = x :: xs). by rewrite IH. }
  assert (Hdec0 : Forall (decorated kf) (decorate kf <$> l)).
  { apply Forall_fmap, Forall_forall. by intros x _. }
  assert (Hdec : Forall (decorated kf) (sort_desc (decorate kf <$> l))).
  { by rewrite sort_desc_Permutation. }
  split; [|split].
  - rewrite sort_desc_Permutation. by rewrite Hsnd.
  - apply decorated_sorted; [done|apply sort_desc_sorted].
  - intros s. rewrite (decorated_filter s _ Hdec), sort_desc_stable.
    rewrite <- (decorated_filter s _ Hdec0). by rewrite Hsnd.
Qed.
End sort_by_key.

Lemma StronglySorted_adjacent {A} (R : relation A) (l : list A) (i : nat) a b :
  StronglySorted R l → l !! i = Some a → l !! S i = Some b → R a b.
Proof.
  intros Hs. revert i. induction Hs as [|x xs Hs IH Hx]; intros i; [done|].
  destruct i as [|i]; simpl.
  - intros [= ->] Hb. rewrite Forall_forall in Hx.
    apply Hx. by eapply list_elem_of_lookup_2.
  - apply IH.
Qed.

(** ** The weighted scorer *)


Lemma lookup_weights_spec (preset : option string) :
  ∃ w, lookup_weights preset = Ok w ∧ profile_of preset w.
Proof.
  unfold lookup_weights, profile_of.
  assert (getitem PRESET_WEIGHTS "default" = Ok default_profile) as ->
    by (vm_compute; reflexivity).
  cbn [bind]. eexists. split; [done|].
  destruct preset as [name|]; simpl; [|done].
  by destruct (PRESET_WEIGHTS !! name).
Qed.

Lemma py_div_pos (x y : Q) : (0 < y)%Q → py_div x y = Ok (x / y)%Q.
Proof.
  intros Hy. unfold py_div.
  destruct (Qeq_bool y 0) eqn:Heq; [|done].
  apply Qeq_bool_iff in Heq. rewrite Heq in Hy. by apply Qlt_irrefl in Hy.
Qed.

(** The guarded quotient [1 - it[k] / limit if limit > 0 else 1.0] never
    divides by zero. *)
Lemma efficiency_guarded (it : item) (k : string) (limit x : Q) :
  get_num it k = Ok x →
  (if Qgtb limit 0 then
     let* p := get_num it k in let* r := py_div p limit in Ok (1 - r)%Q
   else Ok 1%Q)
  = Ok (if decide (0 < limit)%Q then (1 - x / limit)%Q else 1%Q).
Proof.
  intros Hx. destruct (Qgtb limit 0) eqn:Hgt.
  - apply Qgtb_true in Hgt. rewrite Hx. cbn [bind].
    rewrite (py_div_pos _ _ Hgt). cbn [bind]. by rewrite decide_True.
  - apply Qgtb_false in Hgt. rewrite decide_False; [done|].
    by apply Qle_not_lt.
Qed.

Lemma score_item_spec (w : weights) (budget time slider : Q) (it : item) :
  scorable it →
  ∃ sc, score_item w budget time slider it = Ok sc
        ∧ scored_as w budget time slider it sc.
Proof.
  intros ([p Hp] & [t Ht] & [c Hc] & [e He]). unfold score_item.
  rewrite (efficiency_guarded it "price" budget p Hp). cbn [bind].
  rewrite (efficiency_guarded it "time_minutes" time t Ht). cbn [bind].
  rewrite Hc, He. cbn [bind]. eexists. split; [done|].
  unfold scored_as, budget_efficiency, time_efficiency, alignment, weighted_sum.
  rewrite (num_of_Ok _ _ _ Hp), (num_of_Ok _ _ _ Ht),
          (num_of_Ok _ _ _ Hc), (num_of_Ok _ _ _ He).
  split; [|split].
  - rewrite lookup_insert_ne by done. by rewrite lookup_insert_eq.
  - by rewrite lookup_insert_eq.
  - intros k Hk. rewrite !lookup_insert_ne; [done|..];
      intros <-; apply Hk; set_solver.
Qed.

Lemma scored_as_score (w : weights) (budget time slider : Q) (it sc : item) :
  scored_as w budget time slider it sc →
  get_num sc "score" = Ok (num_of "score" sc).
Proof.
  intros (Hs & _). unfold num_of, get_num, getitem. by rewrite Hs.
Qed.

Lemma compute_soft_scores_spec (items : list item)
    (budget time slider : Q) (preset : option string) :
  Forall scorable items →
  ∃ w scored out,
    profile_of preset w
    ∧ Forall2 (scored_as w budget time slider) items scored
    ∧ compute_soft_scores items budget time slider preset = Ok out
    ∧ out ≡ₚ scored
    ∧ StronglySorted score_ge out
    ∧ ∀ s, with_score s out = with_score s scored.
Proof.
  intros Hwf. unfold compute_soft_scores.
  destruct (lookup_weights_spec preset) as (w & -> & Hw). cbn [bind].
  assert (∃ scored, Forall2 (λ it sc, score_item w budget time slider it = Ok sc
                                      ∧ scored_as w budget time slider it sc)
                            items scored) as [scored Hsc].
  { induction Hwf as [|it rest Hit _ [scored IH]]; [by exists []|].
    destruct (score_item_spec w budget time slider it Hit) as (sc & ? & ?).
    exists (sc :: scored). by constructor. }
  assert (mapM_result (score_item w budget time slider) items = Ok scored) as ->.
  { apply mapM_result_Ok. eapply Forall2_impl; [exact Hsc|]. by intros ?? []. }
  cbn [bind].
  assert (Has : Forall2 (scored_as w budget time slider) items scored).
  { eapply Forall2_impl; [exact Hsc|]. by intros ?? []. }
  destruct (sort_by_key_reverse_spec (num_of "score")
              (λ x, get_num x "score") scored) as (out & -> & Hp & Hs & Hst).
  { apply Forall_forall. intros sc Hin.
    apply list_elem_of_lookup in Hin as [j Hj].
    destruct (Forall2_lookup_r _ _ _ _ _ Has Hj) as (it & _ & Hit).
    by eapply scored_as_score. }
  exists w, scored, out. done.
Qed.



(** C3. The scorer's output is in descending order of the rounded composite
    score, for adjacent pairs and hence for all pairs, and the items with a
    given score appear in the order their enriched items have in the scorer's
    input sequence: the sort is stable. *)
Theorem compute_soft_scores_sorted_stable (items : list item)
    (budget time slider : Q) (preset : option string) :
  Forall scorable items →
  ∃ w scored out,
    Forall2 (scored_as w budget time slider) items scored
    ∧ compute_soft_scores items budget time slider preset = Ok out
    ∧ (∀ i a b, out !! i = Some a → out !! S i = Some b → score_ge a b)
    ∧ StronglySorted score_ge out
    ∧ ∀ s, with_score s out = with_score s scored.
Proof.
  intros Hwf.
  destruct (compute_soft_scores_spec items budget time slider preset Hwf)
    as (w & scored & out & _ & ? & ? & _ & Hs & ?).
  exists w, scored, out. repeat split; try done.
  intros i a b. by apply StronglySorted_adjacent.
Qed.

Lemma compute_soft_scores_sorted_stable_witness :
  Forall scorable SAMPLE_ITEMS
  ∧ ∃ w scored out,
      Forall2 (scored_as w 500 120 (1 # 2)) SAMPLE_ITEMS scored
      ∧ compute_soft_scores SAMPLE_ITEMS 500 120 (1 # 2) None = Ok out
      ∧ (∀ i a b, out !! i = Some a → out !! S i = Some b → score_ge a b)
      ∧ StronglySorted score_ge out
      ∧ ∀ s, with_score s out = with_score s scored.
Proof.
  assert (H : Forall scorable SAMPLE_ITEMS).
  { repeat constructor; eexists; vm_compute; reflexivity. }
  split; [exact H|].
  exact (compute_soft_scores_sorted_stable SAMPLE_ITEMS 500 120 (1 # 2) None H).
Defined.

(** ** Identity keys and the candidate pool *)

Lemma id_key_id_of (it : item) : identified it → id_key it = Ok (id_of it).
Proof. intros [k Hk]. unfold id_of. by rewrite Hk. Qed.

Lemma id_key_agree (keys : list string) (a b : item) :
  "id" ∉ keys → agree_except keys a b → id_key b = id_key a.
Proof. intros Hid Hab. unfold id_key, getitem. by rewrite (Hab "id" Hid). Qed.

Lemma mark_top_flagged (it : item) : flagged_top it (mark_top it).
Proof.
  split; [apply lookup_insert_eq|].
  intros k Hk. unfold mark_top. rewrite lookup_insert_ne; [done|].
  intros <-. apply Hk. set_solver.
Qed.

Lemma mark_discovery_flagged (it : item) :
  flagged_discovery it (mark_discovery it).
Proof.
  unfold mark_discovery. split; [|split; [|split]].
  - rewrite lookup_insert_ne by done. apply lookup_insert_eq.
  - apply lookup_insert_eq.
  - done.
  - intros k Hk. rewrite !lookup_insert_ne; [done|..];
      intros <-; apply Hk; set_solver.
Qed.

Lemma id_of_agree (keys : list string) (a b : item) :
  "id" ∉ keys → agree_except keys a b → id_of b = id_of a.
Proof. intros Hid Hab. unfold id_of. by rewrite (id_key_agree keys a b). Qed.

Lemma ids_Forall2 (R : item → item → Prop) (keys : list string)
    (l l' : list item) :
  "id" ∉ keys → (∀ a b, R a b → agree_except keys a b) →
  Forall2 R l l' → id_of <$> l' = id_of <$> l.
Proof.
  intros Hid HR. induction 1 as [|a b l l' Hab _ IH]; [done|].
  rewrite !fmap_cons, IH. f_equal. eapply id_of_agree; eauto.
Qed.

Lemma mapM_id_key (l : list item) :
  Forall identified l → mapM_result id_key l = Ok (id_of <$> l).
Proof.
  intros Hl. apply mapM_result_map.
  eapply Forall_impl; [exact Hl|]. apply id_key_id_of.
Qed.

Lemma filterM_result_filter {A} (p : A → result bool) (P : A → Prop)
    `{!∀ x, Decision (P x)} (l : list A) :
  Forall (λ x, p x = Ok (bool_decide (P x))) l →
  filterM_result p l = Ok (filter P l).
Proof.
  induction 1 as [|x xs Hx _ IH]; [done|].
  simpl. rewrite Hx, IH. cbn [bind]. rewrite filter_cons.
  by destruct (decide (P x)) as [HP|HP];
    [rewrite bool_decide_true|rewrite bool_decide_false].
Qed.

Lemma filter_all {A} (P : A → Prop) `{!∀ x, Decision (P x)} (l : list A) :
  Forall P l → filter P l = l.
Proof.
  induction 1 as [|x xs Hx _ IH]; [done|].
  by rewrite filter_cons, decide_True, IH.
Qed.

Lemma filter_none {A} (P : A → Prop) `{!∀ x, Decision (P x)} (l : list A) :
  Forall (λ x, ¬ P x) l → filter P l = [].
Proof.
  induction 1 as [|x xs Hx _ IH]; [done|].
  by rewrite filter_cons, decide_False, IH.
Qed.

(** The head never reaches the pool, whatever the ids are. *)
Lemma id_pool_tail (l1 l2 : list item) :
  filter (λ it, id_of it ∉ id_of <$> l1) (l1 ++ l2)
  = filter (λ it, id_of it ∉ id_of <$> l1) l2.
Proof.
  rewrite filter_app, filter_none; [done|].
  apply Forall_forall. intros x Hx Hn. apply Hn.
  by apply list_elem_of_fmap_2.
Qed.

(** With pairwise distinct ids the pool is the tail. *)
Lemma id_pool_distinct (l1 l2 : list item) :
  NoDup (id_of <$> l1 ++ l2) →
  filter (λ it, id_of it ∉ id_of <$> l1) (l1 ++ l2) = l2.
Proof.
  intros Hnd. rewrite id_pool_tail. apply filter_all.
  rewrite fmap_app in Hnd. apply NoDup_app in Hnd as (_ & Hdis & _).
  apply Forall_forall. intros x Hx Hin.
  apply (Hdis _ Hin). by apply list_elem_of_fmap_2.
Qed.

Lemma slice_to_from {A} (l : list A) (n : Z) :
  slice_to l n ++ slice_from l n = l.
Proof. apply take_drop. Qed.

Lemma id_pool_sublist (ranked : list item) (top_n : Z) :
  id_pool ranked top_n `sublist_of` slice_from ranked top_n.
Proof.
  unfold id_pool. pose proof (slice_to_from ranked top_n) as E.
  remember (slice_to ranked top_n) as h. remember (slice_from ranked top_n) as t.
  rewrite <- E, id_pool_tail. apply sublist_filter.
Qed.

Lemma id_pool_slice_from (ranked : list item) (top_n : Z) :
  NoDup (id_of <$> ranked) → id_pool ranked top_n = slice_from ranked top_n.
Proof.
  intros Hnd. unfold id_pool. pose proof (slice_to_from ranked top_n) as E.
  remember (slice_to ranked top_n) as h. remember (slice_from ranked top_n) as t.
  rewrite <- E. apply id_pool_distinct. by rewrite E.
Qed.

(** ** Sampling without replacement *)

Lemma sample_draws_submseteq {A} (draws : list nat) (k : nat) (pool : list A) :
  sample_draws draws k pool ⊆+ pool.
Proof.
  revert draws pool. induction k as [|k IH]; intros draws pool; simpl.
  - apply submseteq_nil_l.
  - destruct (pool !! _) as [x|] eqn:Hx; [|apply submseteq_nil_l].
    trans (x :: delete (hd O draws `mod` length pool) pool).
    + apply submseteq_skip, IH.
    + apply Permutation_submseteq. symmetry. by apply delete_Permutation.
Qed.

Lemma sample_draws_length {A} (draws : list nat) (k : nat) (pool : list A) :
  k ≤ length pool → length (sample_draws draws k pool) = k.
Proof.
  revert draws pool. induction k as [|k IH]; intros draws pool Hk; [done|].
  simpl.
  assert (Hj : hd O draws `mod` length pool < length pool).
  { apply Nat.mod_upper_bound. lia. }
  destruct (lookup_lt_is_Some_2 _ _ Hj) as [x Hx]. rewrite Hx. simpl.
  rewrite IH; [done|]. rewrite length_delete by eauto. lia.
Qed.

(** Every selection of distinct positions is the outcome of some draws. *)
Lemma sample_draws_complete {A} (sel pool : list A) :
  sel ⊆+ pool → ∃ draws, sample_draws draws (length sel) pool = sel.
Proof.
  revert pool. induction sel as [|x sel IH]; intros pool Hsub.
  - by exists [].
  - apply submseteq_cons_l in Hsub as (rest & Hperm & Hsub).
    assert (x ∈ pool) as [j Hj]%list_elem_of_lookup
      by (rewrite Hperm; left).
    assert (Hrest : sel ⊆+ delete j pool).
    { trans rest; [done|]. apply Permutation_submseteq.
      apply (Permutation_cons_inv (a := x)).
      by rewrite <- Hperm, <- delete_Permutation. }
    destruct (IH _ Hrest) as [draws Hdraws].
    exists (j :: draws). simpl.
    rewrite Nat.mod_small by (by eapply lookup_lt_Some).
    by rewrite Hj, Hdraws.
Qed.

(** ** The insertion loop *)

Lemma list_insert_at_Permutation {A} (pos : nat) (x : A) (l : list A) :
  list_insert_at pos x l ≡ₚ x :: l.
Proof.
  unfold list_insert_at. rewrite <- Permutation_middle.
  by rewrite take_drop.
Qed.

Lemma insert_picks_Permutation (i : nat) (picks results : list item) :
  insert_picks i picks results ≡ₚ results ++ picks.
Proof.
  revert i results. induction picks as [|p ps IH]; intros i results; simpl.
  - by rewrite app_nil_r.
  - rewrite IH, list_insert_at_Permutation. simpl. apply Permutation_middle.
Qed.

Lemma insert_picks_snoc (i : nat) (picks : list item) (p : item)
    (results : list item) :
  insert_picks i (picks ++ [p]) results
  = list_insert_at
      (Nat.min (2 + (i + length picks) * 2)
               (length (insert_picks i picks results)))
      p (insert_picks i picks results).
Proof.
  revert i results. induction picks as [|q qs IH]; intros i results; simpl.
  - by rewrite Nat.add_0_r.
  - rewrite IH. by rewrite Nat.add_succ_r.
Qed.

(** ** The discovery injector *)

Lemma random_sample_Ok {A} (draws : list nat) (pool : list A) (k : Z) :
  (0 ≤ k ≤ Z.of_nat (length pool))%Z →
  random_sample draws pool k = Ok (sample_draws draws (Z.to_nat k) pool).
Proof.
  intros Hk. unfold random_sample.
  destruct (k <? 0)%Z eqn:H1; [lia|].
  destruct (Z.of_nat (length pool) <? k)%Z eqn:H2; [lia|done].
Qed.

Lemma inject_discovery_spec (draws : list nat) (ranked all_passed : list item)
    (top_n : Z) (discovery_ratio : Q) :
  Forall identified ranked →
  inject_discovery draws ranked all_passed top_n discovery_ratio
  = Ok (match id_pool ranked top_n with
        | [] => mark_top <$> slice_to ranked top_n
        | _ :: _ =>
            let n := Z.min (Z.max 1 (round_half_even
                                       (inject_Z top_n * discovery_ratio)))
                           (Z.of_nat (length (id_pool ranked top_n))) in
            insert_picks 0
              (mark_discovery
                 <$> sample_draws draws (Z.to_nat n) (id_pool ranked top_n))
              (mark_top <$> slice_to ranked top_n)
        end).
Proof.
  intros Hid. unfold inject_discovery.
  rewrite mapM_id_key by (by apply Forall_take). cbn [bind].
  rewrite (filterM_result_filter _
             (λ it, id_of it ∉ id_of <$> slice_to ranked top_n)).
  2:{ eapply Forall_impl; [exact Hid|]. intros it Hit. simpl.
      by rewrite (id_key_id_of it Hit). }
  cbn [bind]. fold (id_pool ranked top_n).
  destruct (id_pool ranked top_n) as [|x pool] eqn:Hpool; [done|].
  rewrite random_sample_Ok; [done|]. simpl length. lia.
Qed.

Lemma flagged_top_fmap (l : list item) : Forall2 flagged_top l (mark_top <$> l).
Proof.
  apply Forall2_fmap_r, Forall_Forall2_diag, Forall_forall.
  intros it _. apply mark_top_flagged.
Qed.

Lemma flagged_discovery_fmap (l : list item) :
  Forall2 flagged_discovery l (mark_discovery <$> l).
Proof.
  apply Forall2_fmap_r, Forall_Forall2_diag, Forall_forall.
  intros it _. apply mark_discovery_flagged.
Qed.

(** The shape of every run of the injector on records that have ids. *)
Lemma inject_discovery_shape (draws : list nat) (ranked all_passed : list item)
    (top_n : Z) (discovery_ratio : Q) :
  Forall identified ranked →
  ∃ sampled,
    inject_discovery draws ranked all_passed top_n discovery_ratio
    = Ok (insert_picks 0 (mark_discovery <$> sampled)
                       (mark_top <$> slice_to ranked top_n))
    ∧ sampled = sample_draws draws (length sampled) (id_pool ranked top_n)
    ∧ sampled ⊆+ id_pool ranked top_n
    ∧ (id_pool ranked top_n = [] → sampled = [])
    ∧ (id_pool ranked top_n ≠ [] →
       Z.of_nat (length sampled)
       = num_discovery_of top_n discovery_ratio
                          (length (id_pool ranked top_n))).
Proof.
  intros Hid. rewrite (inject_discovery_spec _ _ _ _ _ Hid).
  destruct (id_pool ranked top_n) as [|x pool] eqn:Hpool.
  - exists []. repeat split; done.
  - set (n := Z.min _ _).
    assert (Hn : (1 ≤ n ≤ Z.of_nat (length (x :: pool)))%Z).
    { subst n. simpl length. lia. }
    assert (Hlen : length (sample_draws draws (Z.to_nat n) (x :: pool))
                   = Z.to_nat n).
    { apply sample_draws_length. lia. }
    exists (sample_draws draws (Z.to_nat n) (x :: pool)).
    split; [done|]. split; [by rewrite Hlen|].
    split; [apply sample_draws_submseteq|]. split; [done|].
    intros _. rewrite Hlen. unfold num_discovery_of. fold n. lia.
Qed.




(** C5. The output is built from the flagged head, in rank order, by
    inserting the [k]-th drawn item (0-based, in drawing order) at position
    [min (2 + 2 * k) (current length)]: [st k] is the sequence after [k]
    insertions.  Hence the output is a rearrangement of the head items and
    the drawn items, and its length is [len head + num_discovery]. *)
Theorem inject_discovery_interleaves (draws : list nat)
    (ranked all_passed : list item) (top_n : Z) (discovery_ratio : Q) :
  Forall identified ranked →
  ∃ (sampled : list item) (st : nat → list item) (out : list item),
    let head := mark_top <$> slice_to ranked top_n in
    let picks := mark_discovery <$> sampled in
    inject_discovery draws ranked all_passed top_n discovery_ratio = Ok out
    ∧ sampled ⊆+ slice_from ranked top_n
    ∧ st 0 = head
    ∧ (∀ k p, picks !! k = Some p →
         st (S k)
         = list_insert_at (Nat.min (2 + 2 * k) (length (st k))) p (st k))
    ∧ out = st (length picks)
    ∧ out ≡ₚ head ++ picks
    ∧ length out = length (slice_to ranked top_n) + length sampled
    ∧ (id_pool ranked top_n = [] → sampled = [])
    ∧ (id_pool ranked top_n ≠ [] →
       Z.of_nat (length sampled)
       = num_discovery_of top_n discovery_ratio
                          (length (id_pool ranked top_n))).
Proof.
  intros Hid.
  destruct (inject_discovery_shape draws ranked all_passed top_n
              discovery_ratio Hid) as (sampled & Hout & _ & Hsub & He & Hlen).
  set (head := mark_top <$> slice_to ranked top_n).
  set (picks := mark_discovery <$> sampled).
  exists sampled, (λ k, insert_picks 0 (take k picks) head),
         (insert_picks 0 picks head).
  cbv zeta. fold head picks.
  split; [exact Hout|]. split.
  { trans (id_pool ranked top_n); [done|].
    apply sublist_submseteq, id_pool_sublist. }
  split; [by rewrite take_0|]. split.
  { intros k p Hk. rewrite (take_S_r _ _ _ Hk), insert_picks_snoc.
    rewrite length_take_le by (apply Nat.lt_le_incl; by eapply lookup_lt_Some).
    do 2 f_equal. lia. }
  split; [by rewrite firstn_all|].
  split; [apply insert_picks_Permutation|].
  split; [|done].
  rewrite insert_picks_Permutation, length_app.
  subst head picks. by rewrite !length_fmap.
Qed.

Lemma inject_discovery_interleaves_witness :
  Forall identified SAMPLE_ITEMS
  ∧ ∃ (sampled : list item) (st : nat → list item) (out : list item),
      let head := mark_top <$> slice_to SAMPLE_ITEMS 3 in
      let picks := mark_discovery <$> sampled in
      inject_discovery [3; 1] SAMPLE_ITEMS SAMPLE_ITEMS 3 (3 # 20) = Ok out
      ∧ sampled ⊆+ slice_from SAMPLE_ITEMS 3
      ∧ st 0 = head
      ∧ (∀ k p, picks !! k = Some p →
           st (S k)
           = list_insert_at (Nat.min (2 + 2 * k) (length (st k))) p (st k))
      ∧ out = st (length picks)
      ∧ out ≡ₚ head ++ picks
      ∧ length out = length (slice_to SAMPLE_ITEMS 3) + length sampled
      ∧ (id_pool SAMPLE_ITEMS 3 = [] → sampled = [])
      ∧ (id_pool SAMPLE_ITEMS 3 ≠ [] →
         Z.of_nat (length sampled)
         = num_discovery_of 3 (3 # 20) (length (id_pool SAMPLE_ITEMS 3))).
Proof.
  assert (H : Forall identified SAMPLE_ITEMS).
  { repeat constructor; eexists; vm_compute; reflexivity. }
  split; [exact H|].
  exact (inject_discovery_interleaves [3; 1] SAMPLE_ITEMS SAMPLE_ITEMS 3
                                      (3 # 20) H).
Defined.

(** Three discovery items on a head of five land at positions 2, 4 and 6. *)
Example insert_picks_positions (h0 h1 h2 h3 h4 d0 d1 d2 : item) :
  insert_picks 0 [d0; d1; d2] [h0; h1; h2; h3; h4]
  = [h0; h1; d0; h2; d1; h3; d2; h4].
Proof. reflexivity. Qed.

(** On a head of one item the positions are capped by the current length. *)
Example insert_picks_short_head (h0 d0 d1 : item) :
  insert_picks 0 [d0; d1] [h0] = [h0; d0; d1].
Proof. reflexivity. Qed.

(** C6. For a ranked input with pairwise distinct ids and any random draws,
    the output has pairwise distinct ids, and every output item is an input
    item whose fields are all unchanged except [is_discovery] and
    [discovery_reason]. *)
Theorem inject_discovery_no_duplicates (draws : list nat)
    (ranked all_passed : list item) (top_n : Z) (discovery_ratio : Q) :
  Forall identified ranked →
  NoDup (id_of <$> ranked) →
  ∃ out,
    inject_discovery draws ranked all_passed top_n discovery_ratio = Ok out
    ∧ Forall identified out
    ∧ NoDup (id_of <$> out)
    ∧ ∀ o, o ∈ out →
        ∃ it, it ∈ ranked
              ∧ agree_except ["is_discovery"; "discovery_reason"] it o.
Proof.
  intros Hid Hnd.
  destruct (inject_discovery_shape draws ranked all_passed top_n
              discovery_ratio Hid) as (sampled & Hout & _ & Hsub & _ & _).
  rewrite (id_pool_slice_from _ _ Hnd) in Hsub.
  eexists. split; [exact Hout|].
  assert (Hin : ∀ o, o ∈ insert_picks 0 (mark_discovery <$> sampled)
                           (mark_top <$> slice_to ranked top_n) →
                ∃ it, it ∈ ranked
                      ∧ agree_except ["is_discovery"; "discovery_reason"] it o).
  { intros o. rewrite insert_picks_Permutation, elem_of_app, !list_elem_of_fmap.
    intros [(it & -> & Hit)|(it & -> & Hit)]; exists it.
    - split.
      + rewrite <- (slice_to_from ranked top_n), elem_of_app. by left.
      + intros k Hk. apply (proj2 (mark_top_flagged it)). set_solver.
    - split.
      + rewrite <- (slice_to_from ranked top_n), elem_of_app. right.
        by eapply elem_of_submseteq.
      + apply (mark_discovery_flagged it). }
  split; [|split; [|exact Hin]].
  - apply Forall_forall. intros o Ho.
    destruct (Hin o Ho) as (it & Hit & Hag).
    rewrite Forall_forall in Hid. destruct (Hid it Hit) as [k Hk].
    exists k. rewrite <- Hk. eapply id_key_agree; [|exact Hag]. set_solver.
  - rewrite insert_picks_Permutation, fmap_app.
    rewrite (ids_Forall2 flagged_top ["is_discovery"] _ _ ltac:(set_solver)
               ltac:(by intros ?? []) (flagged_top_fmap _)).
    rewrite (ids_Forall2 flagged_discovery ["is_discovery"; "discovery_reason"]
               _ _ ltac:(set_solver) ltac:(by intros ?? (_ & _ & _ & ?))
               (flagged_discovery_fmap _)).
    apply submseteq_Permutation in Hsub as [rest Hrest].
    rewrite <- (slice_to_from ranked top_n), Hrest in Hnd.
    rewrite !fmap_app, app_assoc in Hnd.
    by apply NoDup_app in Hnd as (Hnd & _ & _).
Qed.

Lemma inject_discovery_no_duplicates_witness :
  Forall identified SAMPLE_ITEMS
  ∧ NoDup (id_of <$> SAMPLE_ITEMS)
  ∧ ∃ out,
      inject_discovery [3; 1] SAMPLE_ITEMS SAMPLE_ITEMS 3 (3 # 20) = Ok out
      ∧ Forall identified out
      ∧ NoDup (id_of <$> out)
      ∧ ∀ o, o ∈ out →
          ∃ it, it ∈ SAMPLE_ITEMS
                ∧ agree_except ["is_discovery"; "discovery_reason"] it o.
Proof.
  assert (H1 : Forall identified SAMPLE_ITEMS).
  { repeat constructor; eexists; vm_compute; reflexivity. }
  assert (H2 : NoDup (id_of <$> SAMPLE_ITEMS)).
  { apply (bool_decide_unpack _). vm_compute. reflexivity. }
  split; [exact H1|]. split; [exact H2|].
  exact (inject_discovery_no_duplicates [3; 1] SAMPLE_ITEMS SAMPLE_ITEMS 3
                                        (3 # 20) H1 H2).
Defined.

(** C7. When no ranked item lies beyond the head (in particular when the
    ranked input is empty) the injector raises nothing and returns the head:
    the same items in the same order, the same length, each carrying its
    [is_discovery = False] flag and otherwise unchanged. *)
Theorem inject_discovery_empty_pool (draws : list nat)
    (ranked all_passed : list item) (top_n : Z) (discovery_ratio : Q) :
  Forall identified ranked →
  slice_from ranked top_n = [] →
  ∃ out,
    inject_discovery draws ranked all_passed top_n discovery_ratio = Ok out
    ∧ out = mark_top <$> slice_to ranked top_n
    ∧ slice_to ranked top_n = ranked
    ∧ length out = length (slice_to ranked top_n)
    ∧ Forall2 flagged_top (slice_to ranked top_n) out.
Proof.
  intros Hid Hempty.
  destruct (inject_discovery_shape draws ranked all_passed top_n
              discovery_ratio Hid) as (sampled & Hout & _ & _ & Hnil & _).
  assert (Hpool : id_pool ranked top_n = []).
  { apply sublist_nil_r. rewrite <- Hempty. apply id_pool_sublist. }
  rewrite (Hnil Hpool) in Hout. simpl in Hout.
  eexists. split; [exact Hout|]. split; [done|].
  split; [|split].
  - rewrite <- (slice_to_from ranked top_n) at 2.
    by rewrite Hempty, app_nil_r.
  - by rewrite length_fmap.
  - apply flagged_top_fmap.
Qed.

Lemma inject_discovery_empty_pool_witness :
  Forall identified SAMPLE_ITEMS
  ∧ slice_from SAMPLE_ITEMS 5 = []
  ∧ ∃ out,
      inject_discovery [7] SAMPLE_ITEMS SAMPLE_ITEMS 5 (3 # 20) = Ok out
      ∧ out = mark_top <$> slice_to SAMPLE_ITEMS 5
      ∧ slice_to SAMPLE_ITEMS 5 = SAMPLE_ITEMS
      ∧ length out = length (slice_to SAMPLE_ITEMS 5)
      ∧ Forall2 flagged_top (slice_to SAMPLE_ITEMS 5) out.
Proof.
  assert (H1 : Forall identified SAMPLE_ITEMS).
  { repeat constructor; eexists; vm_compute; reflexivity. }
  assert (H2 : slice_from SAMPLE_ITEMS 5 = []) by reflexivity.
  split; [exact H1|]. split; [exact H2|].
  exact (inject_discovery_empty_pool [7] SAMPLE_ITEMS SAMPLE_ITEMS 5 (3 # 20)
                                     H1 H2).
Defined.

(** The empty ranked list comes back empty for every [top_n]. *)
Example inject_discovery_nil (draws : list nat) (all_passed : list item)
    (top_n : Z) (discovery_ratio : Q) :
  inject_discovery draws [] all_passed top_n discovery_ratio = Ok [].
Proof. unfold inject_discovery, slice_to. by rewrite take_nil. Qed.

(** C10. The injector does not read [all_passed]: with the same ranked list,
    [top_n], ratio and random draws, any two values of [all_passed] give the
    same result, exception or list. *)
Theorem inject_discovery_ignores_all_passed (draws : list nat)
    (ranked all_passed1 all_passed2 : list item) (top_n : Z)
    (discovery_ratio : Q) :
  inject_discovery draws ranked all_passed1 top_n discovery_ratio
  = inject_discovery draws ranked all_passed2 top_n discovery_ratio.
Proof. reflexivity. Qed.

(** ** Totality of the core *)

Lemma scorable_filterable (it : item) : scorable it → filterable it.
Proof. intros (? & ? & _). by split. Qed.




(** ** The explanation stage *)




Lemma merge_explanation_total (expl_map : list (pykey * list (string * value)))
    (it : item) :
  identified it → is_Ok (merge_explanation expl_map it).
Proof.
  intros Hid. unfold merge_explanation.
  rewrite (id_key_id_of it Hid). cbn [bind]. by eexists.
Qed.



Section explainer_properties.
Variable str_value : value → string.
Variable str_int : Z → string.
Variable format_2f : Q → string.
Variable generate_explanations_llm : string → item → list item → value.

Lemma saved_pct_total (it : item) (field : string) (limit : value) :
  is_Ok (as_num limit) → is_Ok (get_num it field) →
  is_Ok (saved_pct it field limit).
Proof.
  intros [l Hl] [x Hx]. unfold saved_pct. rewrite Hl. cbn [bind].
  destruct (Qgtb l 0) eqn:Hgt; [|by eexists].
  apply Qgtb_true in Hgt. rewrite Hx. cbn [bind].
  rewrite (py_div_pos _ _ Hgt). by eexists.
Qed.

Lemma template_explanation_spec (budget time_limit : value) (i : nat)
    (it : item) :
  is_Ok (as_num budget) → is_Ok (as_num time_limit) → explainable it →
  ∃ d, template_explanation str_value str_int format_2f budget time_limit i it
       = Ok (VDict d)
       ∧ template_entry it d.
Proof.
  intros Hb Ht ([k Hk] & Hp & Hm & [sc Hsc] & [name Hname] & [ex Hex]).
  unfold template_explanation.
  destruct (saved_pct_total it "price" budget Hb Hp) as [bp ->].
  destruct (saved_pct_total it "time_minutes" time_limit Ht Hm) as [tp ->].
  cbn [bind].
  assert (∃ v, it !! "id" = Some v) as [v Hv].
  { unfold id_key, getitem in Hk. destruct (it !! "id"); [by eexists|done]. }
  assert (∃ mv, it !! "time_minutes" = Some mv) as [mv Hmv].
  { destruct Hm as [? Hm]. unfold get_num, getitem in Hm.
    destruct (it !! "time_minutes"); [by eexists|done]. }
  assert (∃ pv, it !! "price" = Some pv) as [pv Hpv].
  { destruct Hp as [? Hp]. unfold get_num, getitem in Hp.
    destruct (it !! "price"); [by eexists|done]. }
  unfold getitem. rewrite Hname, Hex, Hsc, Hmv, Hpv, Hv.
  assert (Hwo : ∃ wo, wo ≠ "" ∧
    (if bool_decide (i = 0) then
       "Top pick — best balance of your constraints."
     else if bool_decide (i < 3) then
       "Strong option, slightly less optimal on one dimension."
     else
       "Still meets your constraints but scored lower on weighted combination.")
    = wo).
  { eexists. split; [|done]. by repeat case_bool_decide. }
  destruct Hwo as (wo & Hwo & ->).
  destruct (truthy _); cbn [bind fst snd]; eexists; (split; [done|]);
    (split; [exists v; split; [done|reflexivity]|]);
    do 3 eexists;
    (split; [reflexivity|]); (split; [by cbn|]);
    (split; [reflexivity|]); (split; [by cbn|]);
    (split; [reflexivity|done]).
Qed.

Lemma template_loop_spec (budget time_limit : value) (i : nat)
    (items : list item) :
  is_Ok (as_num budget) → is_Ok (as_num time_limit) →
  Forall explainable items →
  ∃ ds, template_loop str_value str_int format_2f budget time_limit i items
        = Ok (VDict <$> ds)
        ∧ Forall2 template_entry items ds.
Proof.
  intros Hb Ht Hit. revert i.
  induction Hit as [|it rest Hx _ IH]; intros i; [by exists []|].
  destruct (template_explanation_spec budget time_limit i it Hb Ht Hx)
    as (d & Hd & Hentry).
  destruct (IH (S i)) as (ds & Hds & Hrest).
  exists (d :: ds). simpl. rewrite Hd, Hds. split; [done|by constructor].
Qed.

Lemma expl_entry_template (it : item) (d : list (string * value)) :
  identified it → template_entry it d →
  expl_entry (VDict d) = Ok (id_of it, d).
Proof.
  intros Hid [(v & Hv & Hd) _]. unfold expl_entry, subscript.
  rewrite Hd. cbn [bind].
  pose proof (id_key_id_of it Hid) as Hk.
  unfold id_key, getitem in Hk. rewrite Hv in Hk. cbn [bind] in Hk.
  by rewrite Hk.
Qed.

Lemma expl_map_template (items : list item)
    (ds : list (list (string * value))) :
  Forall identified items → Forall2 template_entry items ds →
  ∃ m, mapM_result expl_entry (VDict <$> ds) = Ok m
       ∧ m.*1 = id_of <$> items
       ∧ Forall good_texts m.*2.
Proof.
  intros Hid Hent. induction Hent as [|it d items ds Hd _ IH].
  - by exists [].
  - apply Forall_cons in Hid as [Hit Hid].
    destruct (IH Hid) as (m & Hm & Hkeys & Hgood).
    exists ((id_of it, d) :: m). rewrite fmap_cons. cbn [mapM_result].
    rewrite (expl_entry_template it d Hit Hd). cbn [bind]. rewrite Hm.
    split; [done|]. split; [by rewrite !fmap_cons, Hkeys|].
    rewrite fmap_cons. constructor; [apply Hd|done].
Qed.

End explainer_properties.


(** * Further properties of the code *)

(** ** The pipeline entry point [score_items] *)

Lemma num_of_agree (keys : list string) (k : string) (a b : item) :
  k ∉ keys → agree_except keys a b → num_of k b = num_of k a.
Proof.
  intros Hk Hab. unfold num_of, get_num, getitem. by rewrite (Hab k Hk).
Qed.

Lemma score_items_spec (items : list item) (budget time slider : Q)
    (preset : option string) :
  Forall scorable items →
  ∃ w scored out,
    score_items items budget time slider preset
    = Ok (ScoringResult out
            (Z.of_nat (length items)
             - Z.of_nat (length (filter (within_limits budget time) items)))
            (Z.of_nat (length items)))
    ∧ profile_of preset w
    ∧ Forall2 (scored_as w budget time slider)
              (filter (within_limits budget time) items) scored
    ∧ out ≡ₚ scored
    ∧ StronglySorted score_ge out.
Proof.
  intros Hsc. unfold score_items.
  rewrite apply_hard_constraints_filter.
  2:{ eapply Forall_impl; [exact Hsc|]. apply scorable_filterable. }
  cbn [bind].
  assert (Hsc' : Forall scorable (filter (within_limits budget time) items)).
  { apply Forall_forall. intros x [_ Hx]%list_elem_of_filter.
    rewrite Forall_forall in Hsc. auto. }
  destruct (compute_soft_scores_spec _ budget time slider preset Hsc')
    as (w & scored & out & Hw & Has & -> & Hperm & Hsorted & _).
  cbn [bind]. by exists w, scored, out.
Qed.

(** The counters of [score_items]: [total_count] is the size of the
    catalogue, [filtered_out_count] the number of items over a limit, and
    the ranked list holds all the others. *)
Theorem score_items_counts (items : list item) (budget time slider : Q)
    (preset : option string) :
  Forall scorable items →
  ∃ sr,
    score_items items budget time slider preset = Ok sr
    ∧ total_count sr = Z.of_nat (length items)
    ∧ filtered_out_count sr
      = Z.of_nat (length (filter (λ it, ¬ within_limits budget time it) items))
    ∧ (Z.of_nat (length (ranked sr)) + filtered_out_count sr
       = total_count sr)%Z
    ∧ (0 ≤ filtered_out_count sr ≤ total_count sr)%Z.
Proof.
  intros Hsc.
  destruct (score_items_spec items budget time slider preset Hsc)
    as (w & scored & out & Hrun & _ & Has & Hperm & _).
  eexists. split; [exact Hrun|]. cbn [total_count filtered_out_count ranked].
  pose proof (filter_app_complement (within_limits budget time) items) as Hc.
  apply Permutation_length in Hc. rewrite length_app in Hc.
  apply Permutation_length in Hperm. apply Forall2_length in Has.
  repeat split; lia.
Qed.

Lemma score_items_counts_witness :
  Forall scorable SAMPLE_ITEMS
  ∧ ∃ sr,
      score_items SAMPLE_ITEMS 300 60 (1 # 2) None = Ok sr
      ∧ total_count sr = Z.of_nat (length SAMPLE_ITEMS)
      ∧ filtered_out_count sr
        = Z.of_nat (length (filter (λ it, ¬ within_limits 300 60 it)
                                   SAMPLE_ITEMS))
      ∧ (Z.of_nat (length (ranked sr)) + filtered_out_count sr
         = total_count sr)%Z
      ∧ (0 ≤ filtered_out_count sr ≤ total_count sr)%Z.
Proof.
  assert (H : Forall scorable SAMPLE_ITEMS).
  { repeat constructor; eexists; vm_compute; reflexivity. }
  split; [exact H|].
  exact (score_items_counts SAMPLE_ITEMS 300 60 (1 # 2) None H).
Defined.

(** Every ranked item of [score_items] is a catalogue item that respects
    both limits, with only [score] and [score_breakdown] added. *)
Theorem score_items_within_limits (items : list item) (budget time slider : Q)
    (preset : option string) :
  Forall scorable items →
  ∃ sr,
    score_items items budget time slider preset = Ok sr
    ∧ ∀ o, o ∈ ranked sr →
        (∃ it, it ∈ items ∧ agree_except ["score"; "score_breakdown"] it o)
        ∧ (num_of "price" o <= budget)%Q
        ∧ (num_of "time_minutes" o <= time)%Q.
Proof.
  intros Hsc.
  destruct (score_items_spec items budget time slider preset Hsc)
    as (w & scored & out & Hrun & _ & Has & Hperm & _).
  eexists. split; [exact Hrun|]. cbn [ranked]. intros o Ho.
  rewrite Hperm in Ho. apply list_elem_of_lookup in Ho as [j Hj].
  destruct (Forall2_lookup_r _ _ _ _ _ Has Hj) as (it & Hit & _ & _ & Hag).
  apply list_elem_of_lookup_2, list_elem_of_filter in Hit as [[Hp Ht] Hin].
  split; [by exists it|].
  rewrite (num_of_agree ["score"; "score_breakdown"] "price" it o
             ltac:(set_solver) Hag).
  by rewrite (num_of_agree ["score"; "score_breakdown"] "time_minutes" it o
                ltac:(set_solver) Hag).
Qed.

Lemma score_items_within_limits_witness :
  Forall scorable SAMPLE_ITEMS
  ∧ ∃ sr,
      score_items SAMPLE_ITEMS 300 60 (1 # 2) (Some "saver") = Ok sr
      ∧ ∀ o, o ∈ ranked sr →
          (∃ it, it ∈ SAMPLE_ITEMS
                 ∧ agree_except ["score"; "score_breakdown"] it o)
          ∧ (num_of "price" o <= 300)%Q
          ∧ (num_of "time_minutes" o <= 60)%Q.
Proof.
  assert (H : Forall scorable SAMPLE_ITEMS).
  { repeat constructor; eexists; vm_compute; reflexivity. }
  split; [exact H|].
  exact (score_items_within_limits SAMPLE_ITEMS 300 60 (1 # 2) (Some "saver") H).
Defined.

(** ** Reads and exceptions of the filter and the scorer *)

(** The filter reads [time_minutes] only of items within budget: an item
    over budget is dropped even when its time cost is missing or no
    number. *)
Theorem apply_hard_constraints_lazy_time (items : list item) (budget time : Q) :
  Forall (λ it, ∃ p, get_num it "price" = Ok p
                     ∧ ((p <= budget)%Q → is_Ok (get_num it "time_minutes")))
         items →
  apply_hard_constraints items budget time
  = Ok (filter (within_limits budget time) items).
Proof.
  induction 1 as [|it rest (p & Hp & Ht) _ IH]; [done|].
  cbn [apply_hard_constraints]. rewrite Hp. cbn [bind]. rewrite filter_cons.
  destruct (Qgtb p budget) eqn:Hpb.
  - apply Qgtb_true in Hpb. rewrite IH, decide_False; [done|].
    intros [Hle _]. rewrite (num_of_Ok _ _ _ Hp) in Hle.
    by apply Qlt_not_le in Hpb.
  - apply Qgtb_false in Hpb. destruct (Ht Hpb) as [t Htm].
    rewrite Htm. cbn [bind].
    destruct (Qgtb t time) eqn:Htt.
    + apply Qgtb_true in Htt. rewrite IH, decide_False; [done|].
      intros [_ Hle]. rewrite (num_of_Ok _ _ _ Htm) in Hle.
      by apply Qlt_not_le in Htt.
    + apply Qgtb_false in Htt. rewrite IH. cbn [bind].
      rewrite decide_True; [done|]. split.
      * by rewrite (num_of_Ok _ _ _ Hp).
      * by rewrite (num_of_Ok _ _ _ Htm).
Qed.

Lemma apply_hard_constraints_lazy_time_witness :
  Forall (λ it, ∃ p, get_num it "price" = Ok p
                     ∧ ((p <= 100)%Q → is_Ok (get_num it "time_minutes")))
         (NO_TIME_ITEM :: SAMPLE_ITEMS)
  ∧ apply_hard_constraints (NO_TIME_ITEM :: SAMPLE_ITEMS) 100 120
    = Ok (filter (within_limits 100 120) (NO_TIME_ITEM :: SAMPLE_ITEMS)).
Proof.
  assert (H : Forall (λ it, ∃ p, get_num it "price" = Ok p
                ∧ ((p <= 100)%Q → is_Ok (get_num it "time_minutes")))
                (NO_TIME_ITEM :: SAMPLE_ITEMS)).
  { constructor.
    - exists 900%Q. split; [reflexivity|].
      intros Hle. exfalso. unfold Qle in Hle. simpl in Hle. lia.
    - repeat constructor; eexists; (split; [vm_compute; reflexivity|]);
        intros _; eexists; vm_compute; reflexivity. }
  split; [exact H|].
  exact (apply_hard_constraints_lazy_time (NO_TIME_ITEM :: SAMPLE_ITEMS)
                                          100 120 H).
Defined.

(** An item without [price] makes the filter raise [KeyError('price')]: no
    partial result is returned, whatever follows the item. *)
Theorem apply_hard_constraints_missing_price (before after : list item)
    (it : item) (budget time : Q) :
  Forall filterable before →
  it !! "price" = None →
  apply_hard_constraints (before ++ it :: after) budget time
  = Raise (KeyError "price").
Proof.
  intros Hbefore Hit.
  induction Hbefore as [|x rest [[p Hp] [t Ht]] _ IH].
  - simpl. unfold get_num, getitem. by rewrite Hit.
  - rewrite <- app_comm_cons. cbn [apply_hard_constraints].
    rewrite Hp. cbn [bind]. destruct (Qgtb p budget); [exact IH|].
    rewrite Ht. cbn [bind]. destruct (Qgtb t time); [exact IH|].
    by rewrite IH.
Qed.

Lemma apply_hard_constraints_missing_price_witness :
  Forall filterable SAMPLE_ITEMS
  ∧ NO_PRICE_ITEM !! "price" = None
  ∧ apply_hard_constraints (SAMPLE_ITEMS ++ NO_PRICE_ITEM :: SAMPLE_ITEMS)
                           100 120
    = Raise (KeyError "price").
Proof.
  assert (H1 : Forall filterable SAMPLE_ITEMS).
  { repeat constructor; eexists; vm_compute; reflexivity. }
  assert (H2 : NO_PRICE_ITEM !! "price" = None) by reflexivity.
  split; [exact H1|]. split; [exact H2|].
  exact (apply_hard_constraints_missing_price SAMPLE_ITEMS SAMPLE_ITEMS
           NO_PRICE_ITEM 100 120 H1 H2).
Defined.



(** ** Rounding *)

#[global] Instance round_half_even_proper : Proper (Qeq ==> eq) round_half_even.
Proof.
  intros x y Hxy. unfold round_half_even.
  rewrite (Qfloor_comp x y Hxy).
  assert (Hc : (x - inject_Z (Qfloor y) ?= 1 # 2)%Q
               = (y - inject_Z (Qfloor y) ?= 1 # 2)%Q).
  { apply Qcompare_comp; [by rewrite Hxy|reflexivity]. }
  by rewrite Hc.
Qed.








(** ** Range and monotonicity of the score *)











(** ** Scoring twice *)

Lemma sort_desc_of_sorted {A} (l : list (Q * A)) :
  StronglySorted key_ge l → sort_desc l = l.
Proof.
  induction 1 as [|x l _ IH Hx]; [done|].
  simpl. rewrite IH. destruct l as [|y ys]; [done|].
  apply Forall_cons in Hx as [Hy _]. simpl.
  by rewrite (proj2 (Qgtb_false _ _) Hy).
Qed.

Lemma sort_by_key_reverse_of_sorted {A} (kf : A → Q) (key : A → result Q)
    (l : list A) :
  Forall (λ x, key x = Ok (kf x)) l →
  StronglySorted (λ a b, (kf b <= kf a)%Q) l →
  sort_by_key_reverse key l = Ok l.
Proof.
  intros Hkey Hs. unfold sort_by_key_reverse.
  rewrite (mapM_result_map key kf l Hkey). cbn [bind].
  assert (Hzip : zip (kf <$> l) l = decorate kf <$> l).
  { clear. induction l as [|x xs IH]; [done|].
    change (decorate kf x :: zip (kf <$> xs) xs
            = decorate kf x :: (decorate kf <$> xs)).
    by rewrite IH. }
  rewrite Hzip, sort_desc_of_sorted.
  - f_equal. clear. induction l as [|x xs IH]; [done|].
    change (x :: (decorate kf <$> xs).*2 = x :: xs). by rewrite IH.
  - eapply StronglySorted_fmap; [|exact Hs]. by intros x y.
Qed.

Lemma profile_of_unique (preset : option string) (w1 w2 : weights) :
  profile_of preset w1 → profile_of preset w2 → w1 = w2.
Proof.
  unfold profile_of. destruct preset as [name|]; [|congruence].
  destruct (PRESET_WEIGHTS !! name); congruence.
Qed.

Lemma scored_as_scorable (w : weights) (budget time slider : Q)
    (it sc : item) :
  scored_as w budget time slider it sc → scorable it → scorable sc.
Proof.
  intros (_ & _ & Hag) (Hp & Ht & Hc & He).
  unfold scorable, get_num, getitem in *.
  rewrite <- (Hag "price"), <- (Hag "time_minutes"), <- (Hag "comfort_score"),
          <- (Hag "exploration_score") by set_solver.
  done.
Qed.

(** Scoring a scored item again changes nothing. *)
Lemma score_item_fixed (w : weights) (budget time slider : Q) (it sc : item) :
  scorable it → scored_as w budget time slider it sc →
  score_item w budget time slider sc = Ok sc.
Proof.
  intros Hit Has.
  pose proof (scored_as_scorable _ _ _ _ _ _ Has Hit) as Hsc.
  destruct (score_item_spec w budget time slider sc Hsc) as (sc' & -> & Has').
  f_equal. apply map_eq. intros k.
  destruct Has as (Hs & Hb & Hag), Has' as (Hs' & Hb' & Hag').
  assert (Hnum : ∀ f, f ∉ ["score"; "score_breakdown"] →
                      num_of f sc = num_of f it).
  { intros f Hf. by apply (num_of_agree ["score"; "score_breakdown"]). }
  rewrite !Hnum in Hs', Hb' by set_solver.
  destruct (decide (k = "score")) as [->|]; [congruence|].
  destruct (decide (k = "score_breakdown")) as [->|]; [congruence|].
  symmetry. apply Hag'. set_solver.
Qed.

(** The scorer is idempotent: scoring its own output with the same
    arguments returns that output, in the same order. *)
Theorem compute_soft_scores_idempotent (items : list item)
    (budget time slider : Q) (preset : option string) :
  Forall scorable items →
  ∃ out,
    compute_soft_scores items budget time slider preset = Ok out
    ∧ compute_soft_scores out budget time slider preset = Ok out.
Proof.
  intros Hsc.
  destruct (compute_soft_scores_spec items budget time slider preset Hsc)
    as (w & scored & out & Hw & Has & Hout & Hperm & Hsorted & _).
  exists out. split; [done|].
  assert (Hfix : Forall (λ o, score_item w budget time slider o = Ok o
                              ∧ get_num o "score" = Ok (num_of "score" o))
                        out).
  { rewrite Hperm. clear Hperm Hout Hsorted.
    induction Has as [|it sc l l' Hit _ IH]; [constructor|].
    apply Forall_cons in Hsc as [Hs Hsc]. constructor; [|by apply IH].
    split; [by eapply score_item_fixed|by eapply scored_as_score]. }
  unfold compute_soft_scores.
  destruct (lookup_weights_spec preset) as (w' & -> & Hw').
  rewrite (profile_of_unique preset w' w Hw' Hw). cbn [bind].
  assert (mapM_result (score_item w budget time slider) out = Ok out) as ->.
  { apply mapM_result_Ok, Forall_Forall2_diag.
    eapply Forall_impl; [exact Hfix|]. by intros o []. }
  cbn [bind]. apply (sort_by_key_reverse_of_sorted (num_of "score")).
  - eapply Forall_impl; [exact Hfix|]. by intros o [].
  - exact Hsorted.
Qed.

Lemma compute_soft_scores_idempotent_witness :
  Forall scorable SAMPLE_ITEMS
  ∧ ∃ out,
      compute_soft_scores SAMPLE_ITEMS 500 120 (1 # 2) None = Ok out
      ∧ compute_soft_scores out 500 120 (1 # 2) None = Ok out.
Proof.
  assert (H : Forall scorable SAMPLE_ITEMS).
  { repeat constructor; eexists; vm_compute; reflexivity. }
  split; [exact H|].
  exact (compute_soft_scores_idempotent SAMPLE_ITEMS 500 120 (1 # 2) None H).
Defined.


(** ** Further properties of the injector *)

Lemma list_insert_at_sublist {A} (pos : nat) (x : A) (l : list A) :
  l `sublist_of` list_insert_at pos x l.
Proof.
  unfold list_insert_at. rewrite <- (take_drop pos l) at 1.
  apply sublist_app; [done|]. by apply sublist_cons.
Qed.

Lemma insert_picks_sublist (i : nat) (picks results : list item) :
  results `sublist_of` insert_picks i picks results.
Proof.
  revert i results. induction picks as [|p ps IH]; intros i results; [done|].
  cbn [insert_picks]. etrans; [apply list_insert_at_sublist|apply IH].
Qed.

Lemma list_insert_at_take {A} (n pos : nat) (x : A) (l : list A) :
  n ≤ pos → n ≤ length l → take n (list_insert_at pos x l) = take n l.
Proof.
  intros Hpos Hlen. unfold list_insert_at.
  rewrite take_app_le by (rewrite length_take; lia).
  rewrite take_take. f_equal. lia.
Qed.

Lemma length_list_insert_at {A} (pos : nat) (x : A) (l : list A) :
  length (list_insert_at pos x l) = S (length l).
Proof.
  unfold list_insert_at. rewrite length_app. simpl.
  rewrite length_take, length_drop. lia.
Qed.

Lemma insert_picks_take2 (i : nat) (picks results : list item) :
  2 ≤ length results → take 2 (insert_picks i picks results) = take 2 results.
Proof.
  revert i results. induction picks as [|p ps IH]; intros i results Hlen;
    [done|].
  cbn [insert_picks]. rewrite IH by (rewrite length_list_insert_at; lia).
  apply list_insert_at_take; lia.
Qed.

(** The injector never reorders the head: the flagged head items appear in
    the output in rank order, and when the head has at least two items the
    first two output items are the two best ranked ones. *)
Theorem inject_discovery_keeps_rank_order (draws : list nat)
    (ranked all_passed : list item) (top_n : Z) (discovery_ratio : Q) :
  Forall identified ranked →
  ∃ out,
    inject_discovery draws ranked all_passed top_n discovery_ratio = Ok out
    ∧ (mark_top <$> slice_to ranked top_n) `sublist_of` out
    ∧ (2 ≤ length (slice_to ranked top_n) →
       take 2 out = mark_top <$> take 2 ranked).
Proof.
  intros Hid.
  destruct (inject_discovery_shape draws ranked all_passed top_n
              discovery_ratio Hid) as (sampled & Hout & _).
  eexists. split; [exact Hout|]. split; [apply insert_picks_sublist|].
  intros Hlen. rewrite insert_picks_take2 by (by rewrite length_fmap).
  rewrite <- fmap_take. f_equal. unfold slice_to in *.
  rewrite take_take. f_equal. rewrite length_take in Hlen. lia.
Qed.

Lemma inject_discovery_keeps_rank_order_witness :
  Forall identified LARGE_SAMPLE
  ∧ ∃ out,
      inject_discovery [4; 9] LARGE_SAMPLE [] 4 (1 # 2) = Ok out
      ∧ (mark_top <$> slice_to LARGE_SAMPLE 4) `sublist_of` out
      ∧ (2 ≤ length (slice_to LARGE_SAMPLE 4) →
         take 2 out = mark_top <$> take 2 LARGE_SAMPLE).
Proof.
  assert (H : Forall identified LARGE_SAMPLE).
  { repeat constructor; eexists; vm_compute; reflexivity. }
  split; [exact H|].
  exact (inject_discovery_keeps_rank_order [4; 9] LARGE_SAMPLE [] 4 (1 # 2) H).
Defined.

(** The call of the pipeline, [top_n = 5] and [discovery_ratio = 0.15], on
    more than five ranked items with distinct ids: exactly one item from
    beyond the fifth is shown, at index 2, between the second and the third
    of the five best ranked; the output has six items. *)
Theorem inject_discovery_default_call (draws : list nat)
    (ranked all_passed : list item) :
  Forall identified ranked →
  NoDup (id_of <$> ranked) →
  5 < length ranked →
  ∃ pick,
    pick ∈ drop 5 ranked
    ∧ inject_discovery draws ranked all_passed 5 (3 # 20)
      = Ok ((mark_top <$> take 2 ranked)
            ++ mark_discovery pick :: (mark_top <$> take 3 (drop 2 ranked))).
Proof.
  intros Hid Hnd Hlen.
  destruct (inject_discovery_shape draws ranked all_passed 5 (3 # 20) Hid)
    as (sampled & Hout & _ & Hsub & _ & Hnum).
  rewrite (id_pool_slice_from _ _ Hnd) in Hsub, Hnum.
  assert (Hpool : slice_from ranked 5 = drop 5 ranked) by reflexivity.
  rewrite Hpool in Hsub, Hnum.
  assert (Hone : length sampled = 1).
  { assert (drop 5 ranked ≠ []) as Hne.
    { intros Hnil. apply (f_equal length) in Hnil.
      rewrite length_drop in Hnil. simpl in Hnil. lia. }
    specialize (Hnum Hne). unfold num_discovery_of in Hnum.
    assert (round_half_even (inject_Z 5 * (3 # 20)) = 0%Z ∨
            round_half_even (inject_Z 5 * (3 # 20)) = 1%Z) as Hr
      by (right; vm_compute; reflexivity).
    rewrite length_drop in Hnum. lia. }
  destruct sampled as [|pick [|pick' rest]]; [done| |done].
  exists pick. split.
  { eapply elem_of_submseteq; [|exact Hsub]. left. }
  rewrite Hout. f_equal.
  change (slice_to ranked 5) with (take 5 ranked).
  assert (Hhead : length (mark_top <$> take 5 ranked) = 5).
  { rewrite length_fmap, length_take. lia. }
  cbn [fmap list_fmap insert_picks]. rewrite Hhead.
  change (Nat.min (2 + 0 * 2) 5) with 2. unfold list_insert_at.
  rewrite <- fmap_take, <- fmap_drop, take_take, skipn_firstn_comm.
  done.
Qed.

Lemma inject_discovery_default_call_witness :
  Forall identified LARGE_SAMPLE
  ∧ NoDup (id_of <$> LARGE_SAMPLE)
  ∧ 5 < length LARGE_SAMPLE
  ∧ ∃ pick,
      pick ∈ drop 5 LARGE_SAMPLE
      ∧ inject_discovery [1] LARGE_SAMPLE LARGE_SAMPLE 5 (3 # 20)
        = Ok ((mark_top <$> take 2 LARGE_SAMPLE)
              ++ mark_discovery pick
                 :: (mark_top <$> take 3 (drop 2 LARGE_SAMPLE))).
Proof.
  assert (H1 : Forall identified LARGE_SAMPLE).
  { repeat constructor; eexists; vm_compute; reflexivity. }
  assert (H2 : NoDup (id_of <$> LARGE_SAMPLE)).
  { apply (bool_decide_unpack _). vm_compute. reflexivity. }
  assert (H3 : 5 < length LARGE_SAMPLE) by (simpl; lia).
  split; [exact H1|]. split; [exact H2|]. split; [exact H3|].
  exact (inject_discovery_default_call [1] LARGE_SAMPLE LARGE_SAMPLE H1 H2 H3).
Defined.

Lemma mapM_result_Ok_or_raise {A B} (f : A → result B) (e : exn) (l : list A) :
  Forall (λ x, is_Ok (f x) ∨ f x = Raise e) l →
  is_Ok (mapM_result f l) ∨ mapM_result f l = Raise e.
Proof.
  induction 1 as [|x xs Hx _ IH]; [left; by eexists|].
  simpl. destruct Hx as [[y ->]| ->]; [|by right]. cbn [bind].
  destruct IH as [[ys ->]| ->]; [left; by eexists|by right].
Qed.

Lemma mapM_result_raise {A B} (f : A → result B) (e : exn) (l : list A) :
  Forall (λ x, is_Ok (f x) ∨ f x = Raise e) l →
  Exists (λ x, f x = Raise e) l →
  mapM_result f l = Raise e.
Proof.
  intros Hall Hex. induction Hall as [|x xs Hx Hxs IH]; [by inversion Hex|].
  simpl. destruct Hx as [[y Hy]| ->]; [|done]. rewrite Hy. cbn [bind].
  apply Exists_cons in Hex as [Hex|Hex]; [congruence|].
  by rewrite IH.
Qed.

Lemma filterM_result_raise {A} (p : A → result bool) (e : exn) (l : list A) :
  Forall (λ x, is_Ok (p x) ∨ p x = Raise e) l →
  Exists (λ x, p x = Raise e) l →
  filterM_result p l = Raise e.
Proof.
  intros Hall Hex. induction Hall as [|x xs Hx Hxs IH]; [by inversion Hex|].
  simpl. destruct Hx as [[y Hy]| ->]; [|done]. rewrite Hy. cbn [bind].
  apply Exists_cons in Hex as [Hex|Hex]; [congruence|].
  by rewrite IH.
Qed.

Lemma id_key_no_id (it : item) : no_id it → id_key it = Raise (KeyError "id").
Proof. unfold no_id, id_key, getitem. by intros ->. Qed.

(** The injector reads the id of every ranked item, inside and beyond the
    head: one item without [id] makes it raise [KeyError('id')], for every
    [top_n]. *)
Theorem inject_discovery_missing_id (draws : list nat)
    (ranked all_passed : list item) (top_n : Z) (discovery_ratio : Q) :
  Forall id_or_none ranked →
  Exists no_id ranked →
  inject_discovery draws ranked all_passed top_n discovery_ratio
  = Raise (KeyError "id").
Proof.
  intros Hall Hex. unfold inject_discovery.
  assert (Hkeys : Forall (λ it, is_Ok (id_key it)
                               ∨ id_key it = Raise (KeyError "id")) ranked).
  { eapply Forall_impl; [exact Hall|].
    intros it [?|?]; [by left|right; by apply id_key_no_id]. }
  destruct (mapM_result_Ok_or_raise id_key (KeyError "id")
              (slice_to ranked top_n)) as [[top_ids ->]| ->];
    [by apply Forall_take| |done].
  cbn [bind]. rewrite (filterM_result_raise _ (KeyError "id")); [done|..].
  - eapply Forall_impl; [exact Hkeys|].
    intros it [[k ->]| ->]; [left; by eexists|by right].
  - eapply Exists_impl; [exact Hex|].
    intros it Hit. simpl. by rewrite (id_key_no_id it Hit).
Qed.

Lemma inject_discovery_missing_id_witness :
  Forall id_or_none (SAMPLE_ITEMS ++ [NO_ID_ITEM])
  ∧ Exists no_id (SAMPLE_ITEMS ++ [NO_ID_ITEM])
  ∧ inject_discovery [0] (SAMPLE_ITEMS ++ [NO_ID_ITEM]) [] 2 (3 # 20)
    = Raise (KeyError "id").
Proof.
  assert (H1 : Forall id_or_none (SAMPLE_ITEMS ++ [NO_ID_ITEM])).
  { apply Forall_app. split.
    - repeat apply Forall_cons_2; [..|apply Forall_nil_2];
        left; eexists; vm_compute; reflexivity.
    - apply Forall_cons_2; [right; reflexivity|apply Forall_nil_2]. }
  assert (H2 : Exists no_id (SAMPLE_ITEMS ++ [NO_ID_ITEM])).
  { apply Exists_app. right. constructor. reflexivity. }
  split; [exact H1|]. split; [exact H2|].
  exact (inject_discovery_missing_id [0] (SAMPLE_ITEMS ++ [NO_ID_ITEM]) []
                                     2 (3 # 20) H1 H2).
Defined.

(** On records that come without [discovery_reason], an output item carries
    the reason exactly when it is flagged as a discovery: the drawn items
    have flag [True] and the fixed text, the head items flag [False] and no
    reason. *)
Theorem inject_discovery_reason_iff (draws : list nat)
    (ranked all_passed : list item) (top_n : Z) (discovery_ratio : Q) :
  Forall identified ranked →
  Forall (λ it, it !! "discovery_reason" = None) ranked →
  ∃ out,
    inject_discovery draws ranked all_passed top_n discovery_ratio = Ok out
    ∧ Forall reason_iff_discovery out.
Proof.
  intros Hid Hfresh.
  destruct (inject_discovery_shape draws ranked all_passed top_n
              discovery_ratio Hid) as (sampled & Hout & _).
  eexists. split; [exact Hout|].
  rewrite insert_picks_Permutation. apply Forall_app. split.
  - apply Forall_fmap, Forall_forall. intros it Hit. right. split.
    + apply lookup_insert_eq.
    + unfold mark_top. rewrite lookup_insert_ne by done.
      rewrite Forall_forall in Hfresh. apply Hfresh.
      rewrite <- (slice_to_from ranked top_n), elem_of_app. by left.
  - apply Forall_fmap, Forall_forall. intros it _. left.
    destruct (mark_discovery_flagged it) as (? & ? & _). done.
Qed.

Lemma inject_discovery_reason_iff_witness :
  Forall identified SAMPLE_ITEMS
  ∧ Forall (λ it : item, it !! "discovery_reason" = None) SAMPLE_ITEMS
  ∧ ∃ out,
      inject_discovery [2] SAMPLE_ITEMS [] 3 (3 # 20) = Ok out
      ∧ Forall reason_iff_discovery out.
Proof.
  assert (H1 : Forall identified SAMPLE_ITEMS).
  { repeat constructor; eexists; vm_compute; reflexivity. }
  assert (H2 : Forall (λ it : item, it !! "discovery_reason" = None)
                      SAMPLE_ITEMS).
  { repeat constructor. }
  split; [exact H1|]. split; [exact H2|].
  exact (inject_discovery_reason_iff [2] SAMPLE_ITEMS [] 3 (3 # 20) H1 H2).
Defined.

(** With [top_n = 0] the head is empty and every ranked item is a
    candidate: the output is one drawn item, flagged as a discovery, for
    every ratio. *)
Theorem inject_discovery_top_zero (draws : list nat)
    (ranked all_passed : list item) (discovery_ratio : Q) :
  Forall identified ranked →
  ranked ≠ [] →
  ∃ pick,
    pick ∈ ranked
    ∧ inject_discovery draws ranked all_passed 0 discovery_ratio
      = Ok [mark_discovery pick].
Proof.
  intros Hid Hne.
  destruct (inject_discovery_shape draws ranked all_passed 0 discovery_ratio
              Hid) as (sampled & Hout & _ & Hsub & _ & Hnum).
  assert (Hhead : slice_to ranked 0 = []) by (unfold slice_to; by rewrite take_0).
  assert (Hpool : id_pool ranked 0 = ranked).
  { unfold id_pool. rewrite Hhead. apply filter_all, Forall_forall.
    intros it _. apply not_elem_of_nil. }
  rewrite Hpool in Hsub, Hnum. specialize (Hnum Hne).
  assert (Hone : length sampled = 1).
  { unfold num_discovery_of in Hnum.
    assert (round_half_even (inject_Z 0 * discovery_ratio) = 0%Z) as Hr.
    { rewrite (round_half_even_proper _ 0%Q); [done|]. ring. }
    rewrite Hr in Hnum. destruct ranked; [done|]. simpl length in Hnum. lia. }
  destruct sampled as [|pick [|pick' rest]]; [done| |done].
  exists pick. split.
  { eapply elem_of_submseteq; [|exact Hsub]. left. }
  by rewrite Hout, Hhead.
Qed.

Lemma inject_discovery_top_zero_witness :
  Forall identified SAMPLE_ITEMS
  ∧ SAMPLE_ITEMS ≠ []
  ∧ ∃ pick,
      pick ∈ SAMPLE_ITEMS
      ∧ inject_discovery [3] SAMPLE_ITEMS [] 0 (3 # 20)
        = Ok [mark_discovery pick].
Proof.
  assert (H1 : Forall identified SAMPLE_ITEMS).
  { repeat constructor; eexists; vm_compute; reflexivity. }
  assert (H2 : SAMPLE_ITEMS ≠ []) by discriminate.
  split; [exact H1|]. split; [exact H2|].
  exact (inject_discovery_top_zero [3] SAMPLE_ITEMS [] (3 # 20) H1 H2).
Defined.

(** ** Further properties of the explanation stage *)

Lemma map_get_None {V} (m : list (pykey * V)) (k : pykey) :
  k ∉ m.*1 → map_get m k = None.
Proof.
  induction m as [|[k' v'] m IH]; [done|].
  rewrite fmap_cons, not_elem_of_cons. intros [Hne Hnin]. simpl.
  rewrite (IH Hnin). by rewrite decide_False.
Qed.

Lemma map_get_last {V} (m1 m2 : list (pykey * V)) (k : pykey) (v : V) :
  k ∉ m2.*1 → map_get (m1 ++ (k, v) :: m2) k = Some v.
Proof.
  intros Hnin. induction m1 as [|[k' v'] m1 IH]; simpl.
  - rewrite (map_get_None _ _ Hnin). by rewrite decide_True.
  - by rewrite IH.
Qed.

Lemma expl_map_answer (ds : list (list (string * value))) :
  Forall keyed ds →
  mapM_result expl_entry (VDict <$> ds) = Ok ((λ d, (answer_id d, d)) <$> ds).
Proof.
  induction 1 as [|d ds (id & Hid & [k Hk]) _ IH]; [done|].
  rewrite !fmap_cons. cbn [mapM_result]. rewrite IH.
  unfold expl_entry, subscript, answer_id. rewrite Hid. cbn [bind].
  by rewrite Hk.
Qed.

Lemma merge_explanation_texts_from
    (expl_map : list (pykey * list (string * value))) (it o : item) :
  merge_explanation expl_map it = Ok o →
  texts_from (default [] (map_get expl_map (id_of it))) o.
Proof.
  unfold merge_explanation. intros (k & Hk & [= <-])%bind_Ok.
  unfold id_of. rewrite Hk. repeat split.
  - rewrite !lookup_insert_ne by done. apply lookup_insert_eq.
  - rewrite lookup_insert_ne by done. apply lookup_insert_eq.
  - apply lookup_insert_eq.
Qed.

Section explainer_answers.
Variable str_value : value → string.
Variable str_int : Z → string.
Variable format_2f : Q → string.
Variable generate_explanations_llm : string → item → list item → value.

(** The run of the stage on a non-empty answer that is a list of
    dictionaries with usable ids: the merge loop over the answer's map. *)
Lemma generate_explanations_answer (query : string) (constraints : item)
    (items : list item) (ds : list (list (string * value))) :
  generate_explanations_llm query constraints items = VList (VDict <$> ds) →
  ds ≠ [] → Forall keyed ds →
  generate_explanations str_value str_int format_2f generate_explanations_llm
    query constraints items
  = mapM_result (merge_explanation ((λ d, (answer_id d, d)) <$> ds)) items.
Proof.
  intros Hans Hne Hds. unfold generate_explanations. rewrite Hans.
  assert (truthy (VList (VDict <$> ds)) = true) as ->.
  { destruct ds; [done|]. reflexivity. }
  cbn [bind iterate]. by rewrite (expl_map_answer ds Hds).
Qed.

(** An item whose id the remote answer does not mention gets the default
    texts, and its [why_others_lower] is the empty string. *)
Theorem generate_explanations_defaults (query : string) (constraints : item)
    (items : list item) (ds : list (list (string * value))) :
  generate_explanations_llm query constraints items = VList (VDict <$> ds) →
  ds ≠ [] → Forall keyed ds → Forall identified items →
  ∃ out,
    generate_explanations str_value str_int format_2f
      generate_explanations_llm query constraints items = Ok out
    ∧ Forall2 (λ it o, id_of it ∉ answer_id <$> ds → default_texts o)
              items out.
Proof.
  intros Hans Hne Hds Hid.
  rewrite (generate_explanations_answer _ _ _ ds Hans Hne Hds).
  set (m := (λ d, (answer_id d, d)) <$> ds).
  destruct (mapM_result_total (merge_explanation m) items) as [out Hout].
  { eapply Forall_impl; [exact Hid|]. intros it.
    apply merge_explanation_total. }
  exists out. split; [done|]. apply mapM_result_Ok in Hout.
  eapply Forall2_impl; [exact Hout|]. intros it o Ho Hnin.
  apply merge_explanation_texts_from in Ho.
  rewrite map_get_None in Ho; [exact Ho|].
  subst m. by rewrite <- list_fmap_compose.
Qed.

(** When the answer explains an id several times, the last explanation is
    the one merged; a field it lacks takes the default text, not the text of
    an earlier explanation. *)
Theorem generate_explanations_last_wins (query : string) (constraints : item)
    (items : list item) (ds1 ds2 : list (list (string * value)))
    (d : list (string * value)) :
  generate_explanations_llm query constraints items
  = VList (VDict <$> (ds1 ++ d :: ds2)) →
  Forall keyed (ds1 ++ d :: ds2) → Forall identified items →
  answer_id d ∉ answer_id <$> ds2 →
  ∃ out,
    generate_explanations str_value str_int format_2f
      generate_explanations_llm query constraints items = Ok out
    ∧ Forall2 (λ it o, id_of it = answer_id d → texts_from d o) items out.
Proof.
  intros Hans Hds Hid Hlast.
  rewrite (generate_explanations_answer _ _ _ _ Hans
             ltac:(by destruct ds1) Hds).
  set (m := (λ d, (answer_id d, d)) <$> ds1 ++ d :: ds2).
  destruct (mapM_result_total (merge_explanation m) items) as [out Hout].
  { eapply Forall_impl; [exact Hid|]. intros it.
    apply merge_explanation_total. }
  exists out. split; [done|]. apply mapM_result_Ok in Hout.
  eapply Forall2_impl; [exact Hout|]. intros it o Ho Heq.
  apply merge_explanation_texts_from in Ho.
  subst m. rewrite fmap_app, fmap_cons, Heq, map_get_last in Ho; [exact Ho|].
  by rewrite <- list_fmap_compose.
Qed.

(** A dictionary without [id] in a non-empty answer makes the stage raise
    [KeyError('id')]: the merge is outside the guarded call, so there is no
    fall back to the templates. *)
Theorem generate_explanations_unkeyed_answer (query : string)
    (constraints : item) (items : list item)
    (ds : list (list (string * value))) :
  generate_explanations_llm query constraints items = VList (VDict <$> ds) →
  Forall (λ d, keyed d ∨ unkeyed d) ds →
  Exists unkeyed ds →
  generate_explanations str_value str_int format_2f generate_explanations_llm
    query constraints items
  = Raise (KeyError "id").
Proof.
  intros Hans Hall Hex. unfold generate_explanations. rewrite Hans.
  assert (truthy (VList (VDict <$> ds)) = true) as ->.
  { destruct ds; [by inversion Hex|reflexivity]. }
  cbn [bind iterate].
  rewrite (mapM_result_raise expl_entry (KeyError "id")); [done|..].
  - apply Forall_fmap. eapply Forall_impl; [exact Hall|].
    intros d [(id & Hid & [k Hk])|Hd]; simpl.
    + left. unfold expl_entry, subscript. rewrite Hid. cbn [bind].
      rewrite Hk. by eexists.
    + right. unfold expl_entry, subscript. by rewrite Hd.
  - apply Exists_fmap. eapply Exists_impl; [exact Hex|].
    intros d Hd. simpl. unfold expl_entry, subscript. by rewrite Hd.
Qed.

(** An answer that is a non-empty JSON object, not an array, makes the
    stage raise [TypeError]: the loop runs over the keys, and a string takes
    no ['id'] subscript. *)
Theorem generate_explanations_object_answer (query : string)
    (constraints : item) (items : list item) (d : list (string * value)) :
  generate_explanations_llm query constraints items = VDict d →
  d ≠ [] →
  generate_explanations str_value str_int format_2f generate_explanations_llm
    query constraints items
  = Raise TypeError.
Proof.
  intros Hans Hne. unfold generate_explanations. rewrite Hans.
  destruct d as [|[k v] d]; [done|]. reflexivity.
Qed.
End explainer_answers.

Lemma generate_explanations_defaults_witness :
  llm_partial "lunch" SAMPLE_CONSTRAINTS SCORED_ITEMS
  = VList (VDict <$> PARTIAL_ANSWER)
  ∧ PARTIAL_ANSWER ≠ []
  ∧ Forall keyed PARTIAL_ANSWER
  ∧ Forall identified SCORED_ITEMS
  ∧ ∃ out,
      generate_explanations text_of_value text_of_int text_of_2f llm_partial
        "lunch" SAMPLE_CONSTRAINTS SCORED_ITEMS = Ok out
      ∧ Forall2 (λ it o, id_of it ∉ answer_id <$> PARTIAL_ANSWER →
                         default_texts o)
                SCORED_ITEMS out.
Proof.
  assert (H1 : llm_partial "lunch" SAMPLE_CONSTRAINTS SCORED_ITEMS
               = VList (VDict <$> PARTIAL_ANSWER)) by reflexivity.
  assert (H2 : PARTIAL_ANSWER ≠ []) by discriminate.
  assert (H3 : Forall keyed PARTIAL_ANSWER).
  { repeat apply Forall_cons_2; [..|apply Forall_nil_2];
      eexists; (split; [reflexivity|]); eexists; reflexivity. }
  assert (H4 : Forall identified SCORED_ITEMS).
  { repeat apply Forall_cons_2; [..|apply Forall_nil_2];
      eexists; vm_compute; reflexivity. }
  split; [exact H1|]. split; [exact H2|]. split; [exact H3|].
  split; [exact H4|].
  exact (generate_explanations_defaults text_of_value text_of_int text_of_2f
           llm_partial "lunch" SAMPLE_CONSTRAINTS SCORED_ITEMS PARTIAL_ANSWER
           H1 H2 H3 H4).
Defined.

Lemma generate_explanations_last_wins_witness :
  llm_partial "lunch" SAMPLE_CONSTRAINTS SCORED_ITEMS
  = VList (VDict <$> (take 2 PARTIAL_ANSWER ++ LAST_ANSWER :: []))
  ∧ Forall keyed (take 2 PARTIAL_ANSWER ++ LAST_ANSWER :: [])
  ∧ Forall identified SCORED_ITEMS
  ∧ (answer_id LAST_ANSWER ∉ answer_id <$> [])
  ∧ ∃ out,
      generate_explanations text_of_value text_of_int text_of_2f llm_partial
        "lunch" SAMPLE_CONSTRAINTS SCORED_ITEMS = Ok out
      ∧ Forall2 (λ it o, id_of it = answer_id LAST_ANSWER →
                         texts_from LAST_ANSWER o)
                SCORED_ITEMS out.
Proof.
  assert (H1 : llm_partial "lunch" SAMPLE_CONSTRAINTS SCORED_ITEMS
               = VList (VDict <$> (take 2 PARTIAL_ANSWER ++ LAST_ANSWER :: [])))
    by reflexivity.
  assert (H2 : Forall keyed (take 2 PARTIAL_ANSWER ++ LAST_ANSWER :: [])).
  { repeat apply Forall_cons_2; [..|apply Forall_nil_2];
      eexists; (split; [reflexivity|]); eexists; reflexivity. }
  assert (H3 : Forall identified SCORED_ITEMS).
  { repeat apply Forall_cons_2; [..|apply Forall_nil_2];
      eexists; vm_compute; reflexivity. }
  assert (H4 : answer_id LAST_ANSWER ∉ answer_id <$> [])
    by apply not_elem_of_nil.
  split; [exact H1|]. split; [exact H2|]. split; [exact H3|].
  split; [exact H4|].
  exact (generate_explanations_last_wins text_of_value text_of_int text_of_2f
           llm_partial "lunch" SAMPLE_CONSTRAINTS SCORED_ITEMS
           (take 2 PARTIAL_ANSWER) [] LAST_ANSWER H1 H2 H3 H4).
Defined.

Lemma generate_explanations_unkeyed_answer_witness :
  llm_unkeyed "lunch" SAMPLE_CONSTRAINTS SCORED_ITEMS
  = VList (VDict <$> [[("id", VStr "t1"); ("why_recommended", VStr "Fine.")];
                      [("why_recommended", VStr "No id here.")]])
  ∧ Forall (λ d, keyed d ∨ unkeyed d)
           [[("id", VStr "t1"); ("why_recommended", VStr "Fine.")];
            [("why_recommended", VStr "No id here.")]]
  ∧ Exists unkeyed
           [[("id", VStr "t1"); ("why_recommended", VStr "Fine.")];
            [("why_recommended", VStr "No id here.")]]
  ∧ generate_explanations text_of_value text_of_int text_of_2f llm_unkeyed
      "lunch" SAMPLE_CONSTRAINTS SCORED_ITEMS
    = Raise (KeyError "id").
Proof.
  assert (H1 : llm_unkeyed "lunch" SAMPLE_CONSTRAINTS SCORED_ITEMS
    = VList (VDict <$> [[("id", VStr "t1"); ("why_recommended", VStr "Fine.")];
                        [("why_recommended", VStr "No id here.")]]))
    by reflexivity.
  assert (H2 : Forall (λ d, keyed d ∨ unkeyed d)
                 [[("id", VStr "t1"); ("why_recommended", VStr "Fine.")];
                  [("why_recommended", VStr "No id here.")]]).
  { apply Forall_cons_2; [|apply Forall_cons_2; [|apply Forall_nil_2]].
    - left. eexists. split; [reflexivity|]. eexists. reflexivity.
    - right. reflexivity. }
  assert (H3 : Exists unkeyed
                 [[("id", VStr "t1"); ("why_recommended", VStr "Fine.")];
                  [("why_recommended", VStr "No id here.")]]).
  { apply Exists_cons_tl, Exists_cons_hd. reflexivity. }
  split; [exact H1|]. split; [exact H2|]. split; [exact H3|].
  exact (generate_explanations_unkeyed_answer text_of_value text_of_int
           text_of_2f llm_unkeyed "lunch" SAMPLE_CONSTRAINTS SCORED_ITEMS _
           H1 H2 H3).
Defined.

Lemma generate_explanations_object_answer_witness :
  llm_object "lunch" SAMPLE_CONSTRAINTS SCORED_ITEMS
  = VDict [("explanations", VList [])]
  ∧ [("explanations", VList [])] ≠ []
  ∧ generate_explanations text_of_value text_of_int text_of_2f llm_object
      "lunch" SAMPLE_CONSTRAINTS SCORED_ITEMS
    = Raise TypeError.
Proof.
  assert (H1 : llm_object "lunch" SAMPLE_CONSTRAINTS SCORED_ITEMS
               = VDict [("explanations", VList [])]) by reflexivity.
  assert (H2 : [("explanations", VList [])] ≠ ([] : list (string * value)))
    by discriminate.
  split; [exact H1|]. split; [exact H2|].
  exact (generate_explanations_object_answer text_of_value text_of_int
           text_of_2f llm_object "lunch" SAMPLE_CONSTRAINTS SCORED_ITEMS _
           H1 H2).
Defined.

(** ** The pipeline of [recommend] *)






Section recommend_properties.
Variable str_value : value → string.
Variable str_int : Z → string.
Variable format_2f : Q → string.
Variable generate_explanations_llm : string → item → list item → value.


End recommend_properties.


(** ** The template text by rank *)

Lemma map_get_NoDup {V} (m : list (pykey * V)) (n : nat) (k : pykey) (v : V) :
  NoDup m.*1 → m !! n = Some (k, v) → map_get m k = Some v.
Proof.
  intros Hnd Hn. rewrite <- (take_drop_middle m n (k, v) Hn) in Hnd |- *.
  apply map_get_last.
  rewrite fmap_app, fmap_cons in Hnd.
  apply NoDup_app in Hnd as (_ & _ & Hnd). by apply NoDup_cons in Hnd as [? _].
Qed.

Section template_rank.
Variable str_value : value → string.
Variable str_int : Z → string.
Variable format_2f : Q → string.
Variable generate_explanations_llm : string → item → list item → value.

Lemma template_explanation_rank (budget time_limit : value) (i : nat)
    (it : item) (e : value) :
  template_explanation str_value str_int format_2f budget time_limit i it
  = Ok e →
  ∃ d v, e = VDict d ∧ it !! "id" = Some v ∧ assoc_get d "id" = Some v
         ∧ assoc_get d "why_others_lower" = Some (VStr (rank_text i)).
Proof.
  unfold template_explanation.
  intros (bp & _ & (tp & _ & (texts & _ & (id & Hid & [= <-])%bind_Ok)
                     %bind_Ok)%bind_Ok)%bind_Ok.
  unfold getitem in Hid. destruct (it !! "id") as [v|] eqn:Hv; [|done].
  injection Hid as <-. by eexists _, v.
Qed.

Lemma template_loop_rank (budget time_limit : value) (j : nat)
    (items : list item) (es : list value) :
  template_loop str_value str_int format_2f budget time_limit j items = Ok es →
  ∀ n it, items !! n = Some it →
    ∃ d v, es !! n = Some (VDict d) ∧ it !! "id" = Some v
           ∧ assoc_get d "id" = Some v
           ∧ assoc_get d "why_others_lower" = Some (VStr (rank_text (j + n))).
Proof.
  revert j es. induction items as [|x xs IH]; intros j es Hes n it Hn; [done|].
  cbn [template_loop] in Hes.
  apply bind_Ok in Hes as (e & He & (es' & Hes' & [= <-])%bind_Ok).
  destruct n as [|n]; simpl in Hn.
  - injection Hn as ->.
    destruct (template_explanation_rank _ _ _ _ _ He) as (d & v & -> & ?).
    rewrite Nat.add_0_r. by exists d, v.
  - destruct (IH _ _ Hes' n it Hn) as (d & v & ? & ? & ? & Hr).
    exists d, v. by rewrite Nat.add_succ_r.
Qed.

(** When the templates are used and the ids are pairwise distinct, the
    [why_others_lower] text of an output item is decided by its position:
    "Top pick" at index 0, "Strong option" at indices 1 and 2, "Still
    meets your constraints" from index 3 on. *)
Theorem generate_explanations_rank_text (query : string) (constraints : item)
    (items : list item) :
  truthy (generate_explanations_llm query constraints items) = false →
  numeric_limits constraints →
  Forall explainable items →
  NoDup (id_of <$> items) →
  ∃ out,
    generate_explanations str_value str_int format_2f
      generate_explanations_llm query constraints items = Ok out
    ∧ length out = length items
    ∧ ∀ i o, out !! i = Some o →
        o !! "why_others_lower" = Some (VStr (rank_text i)).
Proof.
  intros Hfalse [Hb Ht] Hex Hnd.
  assert (Hid : Forall identified items).
  { eapply Forall_impl; [exact Hex|]. by intros it [? _]. }
  destruct (template_loop_spec str_value str_int format_2f _ _ 0 items
              Hb Ht Hex) as (ds & Hds & Hent).
  destruct (expl_map_template items ds Hid Hent) as (m & Hm & Hkeys & _).
  destruct (mapM_result_total (merge_explanation m) items) as [out Hout].
  { eapply Forall_impl; [exact Hid|]. intros it.
    apply merge_explanation_total. }
  exists out. split; [|split].
  - unfold generate_explanations. rewrite Hfalse.
    unfold generate_explanations_template. rewrite Hds.
    cbn [bind iterate]. by rewrite Hm.
  - apply mapM_result_Ok in Hout. symmetry. by eapply Forall2_length.
  - intros i o Hi. apply mapM_result_Ok in Hout.
    destruct (Forall2_lookup_r _ _ _ _ _ Hout Hi) as (it & Hit & Hmerge).
    destruct (template_loop_rank _ _ _ _ _ Hds i it Hit)
      as (d & v & Hd & Hv & Hdv & Hrank).
    apply mapM_result_Ok in Hm.
    destruct (Forall2_lookup_l _ _ _ _ _ Hm Hd) as ([k d'] & Hkd & Hentry).
    assert (k = id_of it ∧ d' = d) as [-> ->].
    { unfold expl_entry, subscript in Hentry. rewrite Hdv in Hentry.
      cbn [bind] in Hentry.
      rewrite Forall_forall in Hid.
      destruct (Hid it (list_elem_of_lookup_2 _ _ _ Hit)) as [k' Hk'].
      unfold id_of. rewrite Hk'. unfold id_key, getitem in Hk'.
      rewrite Hv in Hk'. cbn [bind] in Hk'. rewrite Hk' in Hentry.
      cbn [bind] in Hentry. by injection Hentry as <- <-. }
    apply merge_explanation_texts_from in Hmerge.
    rewrite (map_get_NoDup m i (id_of it) d) in Hmerge;
      [|by rewrite Hkeys|done].
    destruct Hmerge as (_ & _ & Hwo). simpl in Hwo. by rewrite Hrank in Hwo.
Qed.
End template_rank.

Lemma generate_explanations_rank_text_witness :
  truthy (llm_unavailable "lunch" SAMPLE_CONSTRAINTS SCORED_ITEMS) = false
  ∧ numeric_limits SAMPLE_CONSTRAINTS
  ∧ Forall explainable SCORED_ITEMS
  ∧ NoDup (id_of <$> SCORED_ITEMS)
  ∧ ∃ out,
      generate_explanations text_of_value text_of_int text_of_2f
        llm_unavailable "lunch" SAMPLE_CONSTRAINTS SCORED_ITEMS = Ok out
      ∧ length out = length SCORED_ITEMS
      ∧ ∀ i o, out !! i = Some o →
          o !! "why_others_lower" = Some (VStr (rank_text i)).
Proof.
  assert (H1 : truthy (llm_unavailable "lunch" SAMPLE_CONSTRAINTS SCORED_ITEMS)
               = false) by reflexivity.
  assert (H2 : numeric_limits SAMPLE_CONSTRAINTS).
  { split; eexists; vm_compute; reflexivity. }
  assert (H3 : Forall explainable SCORED_ITEMS).
  { repeat constructor; eexists; vm_compute; reflexivity. }
  assert (H4 : NoDup (id_of <$> SCORED_ITEMS)).
  { apply (bool_decide_unpack _). vm_compute. reflexivity. }
  split; [exact H1|]. split; [exact H2|]. split; [exact H3|].
  split; [exact H4|].
  exact (generate_explanations_rank_text text_of_value text_of_int text_of_2f
           llm_unavailable "lunch" SAMPLE_CONSTRAINTS SCORED_ITEMS
           H1 H2 H3 H4).
Defined.
